(** * Traditional_Rag: chunker, vector store client and pipeline orchestrator

    A shallow embedding of
      - [document_processing/chunker.py]  ([chunk_text]),
      - [vector_store/weaviate_store.py]  ([WeaviateStore]),
      - [rag/pipeline.py]                 ([RAGPipeline]),
    followed by the properties the specification states about them.

    Python [int] is [Z], Python [float] is a primitive IEEE 754 double
    ([float]), Python [str] is [string], a Python [dict] with string keys
    is a [gmap string _], [Optional] is [option].  Calls that
    leave the process (Gemini, Weaviate, OpenRouter, the file system, the
    clock) are fields of the [Services] interface; every call is recorded in
    a trace, so that "is never invoked" and "inserts no record" are
    statements about that trace. *)

From Stdlib Require Import ZArith Floats String Ascii List Lia.
From stdpp Require Import gmap strings list numbers pretty.

Local Open Scope string_scope.
Local Open Scope Z_scope.
Local Open Scope list_scope.

(** ** Python sequences *)

(** [len(s)] as a Python int. *)
Definition len (s : string) : Z := Z.of_nat (String.length s).

(** How CPython normalises one bound of a slice [s[a:b]] (step 1): a
    negative bound counts from the end, and every bound is clamped into
    [0 .. len(s)]. *)
Definition slice_bound (n i : Z) : Z :=
  if i <? 0 then Z.max 0 (i + n) else Z.min i n.

(** [s[a:b]] for a string [s] and integers [a], [b]. *)
Definition py_slice (s : string) (a b : Z) : string :=
  let lo := slice_bound (len s) a in
  let hi := slice_bound (len s) b in
  if lo <? hi then substring (Z.to_nat lo) (Z.to_nat (hi - lo)) s else "".

(** ** document_processing/chunker.py *)

(** The [while start < len(text)] loop of [chunk_text].  One unit of [fuel]
    is spent per iteration; [None] means the fuel ran out with the loop
    condition still true. *)
Fixpoint chunk_loop (fuel : nat) (text : string) (chunk_size chunk_overlap : Z)
    (chunks : list string) (start : Z) : option (list string) :=
  if start <? len text then
    match fuel with
    | O => None
    | S fuel' =>
        let end_ := start + chunk_size in
        let chunk := py_slice text start end_ in
        chunk_loop fuel' text chunk_size chunk_overlap
                   (chunks ++ [chunk]) (start + chunk_size - chunk_overlap)
    end
  else Some chunks.

(** [chunk_text] with an explicit bound on the number of loop iterations. *)
Definition chunk_text_fuel (fuel : nat) (text : string)
    (chunk_size chunk_overlap : Z) : option (list string) :=
  if String.eqb text "" then Some []
  else if len text <=? chunk_size then Some [text]
  else chunk_loop fuel text chunk_size chunk_overlap [] 0.

(** [chunk_text(text, chunk_size, chunk_overlap)].  [len(text)] iterations
    are enough whenever the loop ends at all ([chunk_loop_diverges] and
    [chunk_loop_enough_fuel] below), so [None] stands for a call that never
    returns. *)
Definition chunk_text (text : string) (chunk_size chunk_overlap : Z)
    : option (list string) :=
  chunk_text_fuel (String.length text) text chunk_size chunk_overlap.

(** *** The windows as the specification words them *)

(** The cursor positions [0, step, 2*step, ...] below [n]. *)
Definition window_starts (n step : Z) : list Z :=
  (fun k => Z.of_nat k * step) <$> seq 0 (Z.to_nat ((n + step - 1) / step)).

(** [text[start : start+chunk_size]] with the end clamped to [len(text)]. *)
Definition window (text : string) (chunk_size start : Z) : string :=
  substring (Z.to_nat start)
            (Z.to_nat (Z.min (start + chunk_size) (len text) - start)) text.

Definition chunk_text_spec (text : string) (chunk_size chunk_overlap : Z)
    : list string :=
  if String.eqb text "" then []
  else if len text <=? chunk_size then [text]
  else window text chunk_size <$>
         window_starts (len text) (chunk_size - chunk_overlap).

(** ** Values, exceptions and calls that leave the process *)

(** A value stored under a key of a metadata dictionary. *)
Inductive pyval : Type :=
| PyStr (s : string)
| PyInt (z : Z).

(** [str(v)], as an f-string renders it. *)
Definition py_str (v : pyval) : string :=
  match v with
  | PyStr s => s
  | PyInt z => pretty z
  end.

(** An embedding: a list of Python floats, that is of IEEE 754 doubles. *)
Definition vector : Type := list float.

(** The three properties of the collection's schema ([_create_collection]). *)
Record properties : Type := Properties {
  content : string;
  source : pyval;
  chunk_index : pyval;
}.

(** An object of [results.objects]: [obj.properties], a dictionary, and
    [obj.metadata.distance], a float or [None]. *)
Record wobject : Type := WObject {
  obj_properties : gmap string pyval;
  obj_distance : option float;
}.

(** One entry of the list [search] returns: the values under the keys
    ["content"], ["source"], ["chunk_index"] and ["score"].  The score is
    an IEEE 754 double, as a Python float is. *)
Record search_result : Type := SearchResult {
  sr_content : pyval;
  sr_source : pyval;
  sr_chunk_index : pyval;
  score : float;
}.

(** The exceptions of the three modules.  [ConnectionError] keeps the two
    values its message is formatted from. *)
#[warnings="-register-all"]
Inductive exn : Type :=
| ValueError (msg : string)
| IndexError (msg : string)
| ConnectionError (retries : Z) (last_error : option exn)
| RemoteError (msg : string)
| KeyError (key : string)
| TypeError (msg : string).

(** The calls made to libraries that talk to the outside. *)
Inductive call : Type :=
| CLoadDocument (file_path : string)
| CEmbedContent (text : string)
| CConnect
| CExists (name : string)
| CCreate (name : string)
| CSleep (seconds : Z)
| CInsert (name : string) (props : properties) (vec : vector)
| CNearVector (name : string) (near : vector) (limit : Z)
| CChatCompletion (model prompt : string).

(** A trace entry: the call and the exception it raised, if any. *)
Record event : Type := Event {
  ev_call : call;
  ev_raised : option exn;
}.

(** What the outside answers.  [W] is the state of the outside world (the
    file system, the Weaviate server, the model providers); each call may
    change it and either raises ([inl]) or returns ([inr]). *)
Class Services (W : Type) : Type := {
  load_document : string -> W -> (exn + string) * W;
  embed_content : string -> W -> (exn + vector) * W;
  connect_to_local : W -> (exn + unit) * W;
  collections_exists : string -> W -> (exn + bool) * W;
  collections_create : string -> W -> (exn + unit) * W;
  time_sleep : Z -> W -> W;
  data_insert : string -> properties -> vector -> W -> (exn + string) * W;
  query_near_vector : string -> vector -> Z -> W -> (exn + list wobject) * W;
  chat_completions_create : string -> string -> W -> (exn + string) * W;
}.

(** ** Effects: state, exceptions, non-termination *)

Inductive outcome (A : Type) : Type :=
| Ret (a : A)
| Raise (e : exn)
| Diverge.
Arguments Ret {A} a.
Arguments Raise {A} e.
Arguments Diverge {A}.

Record state (W : Type) : Type := State {
  world : W;
  trace : list event;
}.
Arguments State {W} world trace.
Arguments world {W} s.
Arguments trace {W} s.

Definition M (W A : Type) : Type := state W -> outcome A * state W.

Definition ret {W A} (a : A) : M W A := fun st => (Ret a, st).

Definition raise {W A} (e : exn) : M W A := fun st => (Raise e, st).

Definition bind {W A B} (m : M W A) (k : A -> M W B) : M W B :=
  fun st =>
    match m st with
    | (Ret a, st') => k a st'
    | (Raise e, st') => (Raise e, st')
    | (Diverge, st') => (Diverge, st')
    end.

Notation "'let*' x ':=' m 'in' k" := (bind m (fun x => k))
  (at level 10, x name, m at level 100, k at level 200, only parsing).

(** [try: m  except Exception as e: h e]. *)
Definition try_except {W A} (m : M W A) (h : exn -> M W A) : M W A :=
  fun st =>
    match m st with
    | (Raise e, st') => h e st'
    | r => r
    end.

(** One call to the outside, recorded in the trace. *)
Definition perform {W A} (c : call) (f : W -> (exn + A) * W) : M W A :=
  fun st =>
    match f (world st) with
    | (inl e, w) => (Raise e, State w (trace st ++ [Event c (Some e)]))
    | (inr a, w) => (Ret a, State w (trace st ++ [Event c None]))
    end.

(** [range(n)]. *)
Definition py_range (n : Z) : list Z := Z.of_nat <$> seq 0 (Z.to_nat n).

(** [enumerate(l)]. *)
Definition enumerate {A} (l : list A) : list (Z * A) :=
  zip (py_range (Z.of_nat (length l))) l.

(** [l[i]] for a list: negative indices count from the end, anything else
    out of range raises [IndexError]. *)
Definition py_getitem {W A} (l : list A) (i : Z) : M W A :=
  let n := Z.of_nat (length l) in
  let j := if i <? 0 then i + n else i in
  match (if (0 <=? j) && (j <? n) then l !! Z.to_nat j else None) with
  | Some x => ret x
  | None => raise (IndexError "list index out of range")
  end.

(** ** vector_store/weaviate_store.py *)

(** The fields of a [WeaviateStore] the methods read.  (Host and ports only
    feed [weaviate.connect_to_local].) *)
Record WeaviateStore : Type := {
  class_name : string;
  max_retries : Z;
}.

(** What [print] writes to the console is not modelled. *)

Section Store.
Context {W : Type} `{Services W}.

(** [_create_collection]: check, then create. *)
Definition _create_collection (self : WeaviateStore) : M W unit :=
  let* present := perform (CExists (class_name self))
                          (collections_exists (class_name self)) in
  if (present : bool) then ret tt
  else perform (CCreate (class_name self))
               (collections_create (class_name self)).

(** The body of [for attempt in range(self.max_retries)].  [inl tt] is the
    [return] inside the [try]; [inr last_error] is the loop running off its
    end. *)
Fixpoint retry_loop (self : WeaviateStore) (attempts : list Z)
    (last_error : option exn) : M W (unit + option exn) :=
  match attempts with
  | [] => ret (inr last_error)
  | attempt :: rest =>
      try_except
        (let* _ := _create_collection self in ret (inl tt))
        (fun e =>
           let last_error := Some e in
           let wait_time := 2 ^ attempt in
           let* _ := perform (CSleep wait_time)
                             (fun w => (inr tt, time_sleep wait_time w)) in
           retry_loop self rest last_error)
  end.

Definition _create_collection_with_retry (self : WeaviateStore) : M W unit :=
  let* r := retry_loop self (py_range (max_retries self)) None in
  match r with
  | inl _ => ret tt
  | inr last_error => raise (ConnectionError (max_retries self) last_error)
  end.

(** [WeaviateStore.__init__], as [RAGPipeline] calls it: names from the
    configuration, then connect and provision. *)
Definition WeaviateStore_init (name : string) (retries : Z)
    : M W WeaviateStore :=
  let self := {| class_name := name; max_retries := retries |} in
  let* _ := perform CConnect connect_to_local in
  let* _ := _create_collection_with_retry self in
  ret self.

(** The [for i, (text, embedding) in enumerate(zip(texts, embeddings))]
    loop of [add_documents]. *)
Fixpoint add_documents_loop (self : WeaviateStore)
    (metadata : option (list (gmap string pyval)))
    (items : list (Z * (string * vector))) (ids : list string)
    : M W (list string) :=
  match items with
  | [] => ret ids
  | (i, (text, embedding)) :: rest =>
      let* meta :=
        match metadata with
        | Some ((_ :: _) as md) => py_getitem md i
        | _ => ret ∅
        end in
      let props :=
        {| content := text;
           source := default (PyStr "unknown") (meta !! "source");
           chunk_index := default (PyInt i) (meta !! "chunk_index") |} in
      let* uuid := perform (CInsert (class_name self) props embedding)
                           (data_insert (class_name self) props embedding) in
      add_documents_loop self metadata rest (ids ++ [uuid])
  end.

(** [self.client.collections.get(name)] only builds a handle; the calls
    that reach the server are [insert] and [near_vector]. *)
Definition add_documents (self : WeaviateStore) (texts : list string)
    (embeddings : list vector) (metadata : option (list (gmap string pyval)))
    : M W (list string) :=
  if negb (length texts =? length embeddings)%nat then
    raise (ValueError ("Mismatch: " +:+ pretty (length texts)
                       +:+ " texts but " +:+ pretty (length embeddings)
                       +:+ " embeddings"))
  else
    add_documents_loop self metadata (enumerate (zip texts embeddings)) [].

(** The dictionary built for one object in the loop of [search].  Its
    entries are evaluated in the order written: [obj.properties[key]]
    raises [KeyError] for a key that is absent, and [1 - None] raises
    [TypeError].  The subtraction is the one of floats. *)
Definition format_result (obj : wobject) : exn + search_result :=
  match obj_properties obj !! "content" with
  | None => inl (KeyError "content")
  | Some c =>
      match obj_properties obj !! "source" with
      | None => inl (KeyError "source")
      | Some s =>
          match obj_properties obj !! "chunk_index" with
          | None => inl (KeyError "chunk_index")
          | Some i =>
              match obj_distance obj with
              | None =>
                  inl (TypeError
                         "unsupported operand type(s) for -: 'int' and 'NoneType'")
              | Some d =>
                  inr {| sr_content := c;
                         sr_source := s;
                         sr_chunk_index := i;
                         score := (1 - d)%float |}
              end
          end
      end
  end.

(** [for obj in results.objects: formatted_results.append({...})]. *)
Fixpoint format_results (objects : list wobject)
    (formatted_results : list search_result) : M W (list search_result) :=
  match objects with
  | [] => ret formatted_results
  | obj :: rest =>
      match format_result obj with
      | inl e => raise e
      | inr result => format_results rest (formatted_results ++ [result])
      end
  end.

Definition search (self : WeaviateStore) (query_embedding : vector)
    (top_k : Z) : M W (list search_result) :=
  let* objects :=
    perform (CNearVector (class_name self) query_embedding top_k)
            (query_near_vector (class_name self) query_embedding top_k) in
  format_results objects [].

End Store.

(** ** embeddings/gemini_embedder.py *)

Section Embedder.
Context {W : Type} `{Services W}.

Definition embed (text : string) : M W vector :=
  perform (CEmbedContent text) (embed_content text).

Definition embed_query (text : string) : M W vector := embed text.

(** [[self.embed(text) for text in texts]]. *)
Fixpoint embed_batch (texts : list string) : M W (list vector) :=
  match texts with
  | [] => ret []
  | text :: rest =>
      let* v := embed text in
      let* vs := embed_batch rest in
      ret (v :: vs)
  end.

End Embedder.

(** ** rag/pipeline.py *)

Record RAGPipeline : Type := {
  vector_store : WeaviateStore;
  chunk_size : Z;
  chunk_overlap : Z;
  llm_model : string;
}.

Definition no_information : string :=
  "I couldn't find any relevant information to answer your question.".

Definition context_separator : string := "

---

".

(** [f"[Source: {chunk['source']}]\n{chunk['content']}"]. *)
Definition format_chunk (chunk : search_result) : string :=
  "[Source: " +:+ py_str (sr_source chunk) +:+ "]
" +:+ py_str (sr_content chunk).

(** [sep.join(parts)]. *)
Fixpoint join (sep : string) (parts : list string) : string :=
  match parts with
  | [] => ""
  | [x] => x
  | x :: rest => x +:+ sep +:+ join sep rest
  end.

Definition build_prompt (query : string) (context_text : string) : string :=
  "You are a helpful assistant that answers questions based on the provided context.

CONTEXT:
" +:+ context_text +:+ "

QUESTION:
" +:+ query +:+ "

INSTRUCTIONS:
1. Answer based ONLY on the context provided above.
2. If the context doesn't contain enough information, say so.
3. Be concise but thorough.
4. Cite which source(s) you used when relevant.

ANSWER:".

Section Pipeline.
Context {W : Type} `{Services W}.

(** [RAGPipeline.__init__] with the values of [config/settings.py].
    Building the Gemini and OpenAI client objects makes no call. *)
Definition RAGPipeline_init : M W RAGPipeline :=
  let* store := WeaviateStore_init "Document" 5 in
  ret {| vector_store := store;
         chunk_size := 1000;
         chunk_overlap := 200;
         llm_model := "xiaomi/mimo-v2-flash:free" |}.

Definition ingest_document (self : RAGPipeline) (file_path : string)
    : M W Z :=
  let* text := perform (CLoadDocument file_path) (load_document file_path) in
  let* chunks :=
    (match chunk_text text (chunk_size self) (chunk_overlap self) with
     | Some chunks => ret chunks
     | None => fun st => (Diverge, st)
     end) in
  let* embeddings := embed_batch chunks in
  let metadata :=
    (fun i => ({[ "source" := PyStr file_path;
                  "chunk_index" := PyInt i ]} : gmap string pyval))
      <$> py_range (Z.of_nat (length chunks)) in
  let* _ := add_documents (vector_store self) chunks embeddings
                          (Some metadata) in
  ret (Z.of_nat (length chunks)).

(** The [for path in file_paths] loop of [ingest_multiple], carrying
    [total_chunks]. *)
Fixpoint ingest_loop (self : RAGPipeline) (file_paths : list string)
    (total_chunks : Z) : M W Z :=
  match file_paths with
  | [] => ret total_chunks
  | path :: rest =>
      let* total_chunks :=
        try_except
          (let* chunks := ingest_document self path in
           ret (total_chunks + chunks))
          (fun e => ret total_chunks) in
      ingest_loop self rest total_chunks
  end.

Definition ingest_multiple (self : RAGPipeline) (file_paths : list string)
    : M W Z :=
  ingest_loop self file_paths 0.

Definition retrieve (self : RAGPipeline) (query : string) (top_k : Z)
    : M W (list search_result) :=
  let* query_embedding := embed_query query in
  let* results := search (vector_store self) query_embedding top_k in
  ret results.

Definition generate_answer (self : RAGPipeline) (query : string)
    (context_chunks : list search_result) : M W string :=
  let context_text := join context_separator (format_chunk <$> context_chunks) in
  let prompt := build_prompt query context_text in
  perform (CChatCompletion (llm_model self) prompt)
          (chat_completions_create (llm_model self) prompt).

Definition query (self : RAGPipeline) (question : string) (top_k : Z)
    : M W string :=
  let* results := retrieve self question top_k in
  match results with
  | [] => ret no_information
  | _ => generate_answer self question results
  end.

(** *** [ingest_multiple] as the specification words it *)

(** The chunk counts of the paths whose ingestion succeeds, summed, the
    paths being ingested one after the other from state [st]. *)
Fixpoint ingested_total (self : RAGPipeline) (file_paths : list string)
    (st : state W) : Z :=
  match file_paths with
  | [] => 0
  | path :: rest =>
      match ingest_document self path st with
      | (Ret chunks, st') => chunks + ingested_total self rest st'
      | (_, st') => ingested_total self rest st'
      end
  end.

End Pipeline.

(** ** Reading a trace *)

Definition load_view (ev : event) : option string :=
  match ev_call ev with CLoadDocument p => Some p | _ => None end.

Definition embed_view (ev : event) : option string :=
  match ev_call ev with CEmbedContent t => Some t | _ => None end.

Definition generate_view (ev : event) : option string :=
  match ev_call ev with CChatCompletion _ prompt => Some prompt | _ => None end.

(** The paths handed to [load_document], in call order. *)
Definition loaded_paths (tr : list event) : list string := omap load_view tr.

(** The texts handed to the embedding model, in call order. *)
Definition embedded_texts (tr : list event) : list string := omap embed_view tr.

(** The prompts handed to the language model, in call order. *)
Definition generated_prompts (tr : list event) : list string :=
  omap generate_view tr.

(** [m] returns or raises (it does not run forever) and makes no call that
    [view] shows. *)
Definition silent {W A X : Type} (view : event -> option X) (m : M W A) : Prop :=
  forall st,
    fst (m st) <> Diverge /\
    omap view (trace (snd (m st))) = omap view (trace st).

(** Provisioning seen from outside: an attempt starts with the existence
    check; a wait is a sleep. *)
Inductive retry_step : Type :=
| Attempt
| Wait (seconds : Z).

Definition retry_steps (tr : list event) : list retry_step :=
  omap (fun ev => match ev_call ev with
                  | CExists _ => Some Attempt
                  | CSleep s => Some (Wait s)
                  | _ => None
                  end) tr.

Definition is_attempt (step : retry_step) : bool :=
  match step with Attempt => true | Wait _ => false end.

(** How many attempts a trace shows. *)
Definition attempts (tr : list event) : nat :=
  length (List.filter is_attempt (retry_steps tr)).

(** [max_retries: int = 5] in the signature of [WeaviateStore.__init__]. *)
Definition default_max_retries : Z := 5.

(** Provisioning with its failures: an existence check opens an attempt,
    a call that raises is a failure of the attempt it belongs to, a sleep is
    a wait. *)
Inductive log_item : Type :=
| Tried
| Failed (e : exn)
| Waited (seconds : Z).

Definition retry_log (tr : list event) : list log_item :=
  flat_map (fun ev =>
              match ev_call ev with
              | CExists _ => [Tried]
              | CSleep seconds => [Waited seconds]
              | _ => []
              end ++
              match ev_raised ev with
              | Some e => [Failed e]
              | None => []
              end) tr.

(** The log of attempts [first], [first + 1], ... failing with the
    exceptions [errs]: each is tried, fails, and is waited after. *)
Fixpoint failed_log (first : Z) (errs : list exn) : list log_item :=
  match errs with
  | [] => []
  | e :: rest =>
      Tried :: Failed e :: Waited (2 ^ first) :: failed_log (first + 1) rest
  end.

(** The exceptions raised by the calls of a trace, in order. *)
Definition raised (tr : list event) : list exn := omap ev_raised tr.

(** [n] failed attempts, numbered from [first], each followed by its wait. *)
Definition failed_attempts (first : Z) (n : nat) : list retry_step :=
  flat_map (fun a => [Attempt; Wait (2 ^ a)])
           ((fun k => first + Z.of_nat k) <$> seq 0 n).

(** The record of one successful insertion by [add_documents]: item
    [(i, (text, embedding))] stored with the metadata [meta]. *)
Definition insert_event (name : string) (item : Z * (string * vector))
    (meta : gmap string pyval) : event :=
  Event (CInsert name
           {| content := fst (snd item);
              source := default (PyStr "unknown") (meta !! "source");
              chunk_index := default (PyInt (fst item)) (meta !! "chunk_index") |}
           (snd (snd item)))
        None.

(** Object [obj] is shown as result [r]: same content, source and chunk
    index, and the score is one minus the distance. *)
Definition shown_as (obj : wobject) (r : search_result) : Prop :=
  obj_properties obj !! "content" = Some (sr_content r) /\
  obj_properties obj !! "source" = Some (sr_source r) /\
  obj_properties obj !! "chunk_index" = Some (sr_chunk_index r) /\
  exists d, obj_distance obj = Some d /\ score r = (1 - d)%float.

(** What [search] stumbles on in an object: the first of the three
    properties that is absent, else a distance that is [None]. *)
Definition missing_in (obj : wobject) : option exn :=
  if decide (obj_properties obj !! "content" = None) then
    Some (KeyError "content")
  else if decide (obj_properties obj !! "source" = None) then
    Some (KeyError "source")
  else if decide (obj_properties obj !! "chunk_index" = None) then
    Some (KeyError "chunk_index")
  else if decide (obj_distance obj = None) then
    Some (TypeError "unsupported operand type(s) for -: 'int' and 'NoneType'")
  else None.

(** What the happy path of [add_documents] relies on: the server accepts
    an insertion. *)
Definition insert_ok (W : Type) `{Services W} : Prop :=
  forall name props vec w,
    exists uuid w', data_insert name props vec w = (inr uuid, w').

(** ** An in-memory stand-in for the outside

    Used to run the code on concrete inputs: a table of readable files, a
    server that refuses the first [boot] requests, a collection that
    records what is inserted, and canned search results and answers. *)

Record sim : Type := Sim {
  files : list (string * string);
  boot : nat;
  created : bool;
  inserted : list (properties * vector);
}.

Fixpoint file_text (path : string) (table : list (string * string))
    : option string :=
  match table with
  | [] => None
  | (p, text) :: rest =>
      if String.eqb p path then Some text else file_text path rest
  end.

(** An object as the collection of this application holds it. *)
Definition stored_object (text file : string) (index : Z) (d : float)
    : wobject :=
  {| obj_properties := {[ "content" := PyStr text;
                          "source" := PyStr file;
                          "chunk_index" := PyInt index ]};
     obj_distance := Some d |}.

Definition canned_objects : list wobject :=
  [ stored_object "Paris is the capital of France." "geo.txt" 0 0.25;
    stored_object "The Eiffel Tower is in Paris." "geo.txt" 1 0.5 ].

Definition canned_results : list search_result :=
  [ {| sr_content := PyStr "Paris is the capital of France.";
       sr_source := PyStr "geo.txt";
       sr_chunk_index := PyInt 0;
       score := 0.75 |};
    {| sr_content := PyStr "The Eiffel Tower is in Paris.";
       sr_source := PyStr "geo.txt";
       sr_chunk_index := PyInt 1;
       score := 0.5 |} ].

#[export] Instance sim_services : Services sim := {
  load_document path w :=
    match file_text path (files w) with
    | Some text => (inr text, w)
    | None => (inl (ValueError "Unsupported file type"), w)
    end;
  embed_content text w :=
    (inr [if String.eqb text "" then 0%float else 1%float], w);
  connect_to_local w := (inr tt, w);
  collections_exists name w :=
    match boot w with
    | S b => (inl (RemoteError "not ready"),
              Sim (files w) b (created w) (inserted w))
    | O => (inr (created w), w)
    end;
  collections_create name w :=
    (inr tt, Sim (files w) (boot w) true (inserted w));
  time_sleep seconds w := w;
  data_insert name props vec w :=
    (inr (pretty (length (inserted w))),
     Sim (files w) (boot w) (created w) (inserted w ++ [(props, vec)]));
  query_near_vector name near limit w :=
    (inr (take (Z.to_nat limit) canned_objects), w);
  chat_completions_create model prompt w := (inr "Paris.", w);
}.

Definition sim_store : WeaviateStore :=
  {| class_name := "Document"; max_retries := 5 |}.

Definition sim_pipeline : RAGPipeline :=
  {| vector_store := sim_store;
     chunk_size := 4;
     chunk_overlap := 1;
     llm_model := "xiaomi/mimo-v2-flash:free" |}.

Definition sim_start : state sim :=
  State (Sim [("a.txt", "ABCDEFGHIJ"); ("b.txt", "xyz")] 0 true []) [].

(** The pipeline [RAGPipeline()] builds from config/settings.py. *)
Definition sim_pipeline_default : RAGPipeline :=
  {| vector_store := sim_store;
     chunk_size := 1000;
     chunk_overlap := 200;
     llm_model := "xiaomi/mimo-v2-flash:free" |}.

(** ** More ways to read a trace *)

(** The properties handed to [collection.data.insert], in call order. *)
Definition insert_view (ev : event) : option properties :=
  match ev_call ev with CInsert _ props _ => Some props | _ => None end.

Definition inserted_props (tr : list event) : list properties :=
  omap insert_view tr.

Definition is_insert_into (name : string) (ev : event) : Prop :=
  exists props vec, ev_call ev = CInsert name props vec.

Definition is_embed_call (ev : event) : Prop :=
  exists text, ev_call ev = CEmbedContent text.

(** The seconds slept during provisioning. *)
Fixpoint total_wait (steps : list retry_step) : Z :=
  match steps with
  | [] => 0
  | Attempt :: rest => total_wait rest
  | Wait seconds :: rest => seconds + total_wait rest
  end.

(** The embedding model answers. *)
Definition embed_ok (W : Type) `{Services W} : Prop :=
  forall text w, exists v w', embed_content text w = (inr v, w').

(** The metadata [ingest_document] builds for chunk [i] of [file_path]. *)
Definition chunk_metadata (file_path : string) (i : Z) : gmap string pyval :=
  {[ "source" := PyStr file_path; "chunk_index" := PyInt i ]}.

(** The records [ingest_document] means to store for the chunks of
    [file_path], the first of them numbered [i]. *)
Fixpoint chunk_records (file_path : string) (i : Z) (chunks : list string)
    : list properties :=
  match chunks with
  | [] => []
  | chunk :: rest =>
      {| content := chunk; source := PyStr file_path; chunk_index := PyInt i |}
      :: chunk_records file_path (i + 1) rest
  end.

(** [needle in haystack] for strings. *)
Definition contains (needle haystack : string) : Prop :=
  exists before after, haystack = (before +:+ needle +:+ after)%string.

(** ** A stand-in for an outside that is down: every call raises. *)

Definition offline : exn := RemoteError "connection refused".

Definition offline_services : Services unit := {|
  load_document path w := (inl offline, w);
  embed_content text w := (inl offline, w);
  connect_to_local w := (inl offline, w);
  collections_exists name w := (inl offline, w);
  collections_create name w := (inl offline, w);
  time_sleep seconds w := w;
  data_insert name props vec w := (inl offline, w);
  query_near_vector name near limit w := (inl offline, w);
  chat_completions_create model prompt w := (inl offline, w);
|}.

Definition offline_start : state unit := State tt [].

(** A server that embeds and searches but whose inserts are refused. *)
Definition read_only_services : Services sim := {|
  load_document := load_document (Services := sim_services);
  embed_content := embed_content (Services := sim_services);
  connect_to_local := connect_to_local (Services := sim_services);
  collections_exists := collections_exists (Services := sim_services);
  collections_create := collections_create (Services := sim_services);
  time_sleep := time_sleep (Services := sim_services);
  data_insert name props vec w := (inl (RemoteError "read only"), w);
  query_near_vector := query_near_vector (Services := sim_services);
  chat_completions_create :=
    chat_completions_create (Services := sim_services);
|}.



Definition incomplete_objects : list wobject :=
  [ stored_object "first" "geo.txt" 0 0.25;
    {| obj_properties := {[ "content" := PyStr "no source" ]};
       obj_distance := Some 0.5%float |};
    {| obj_properties := ∅; obj_distance := None |} ].

Definition incomplete_services : Services sim := {|
  load_document := load_document (Services := sim_services);
  embed_content := embed_content (Services := sim_services);
  connect_to_local := connect_to_local (Services := sim_services);
  collections_exists := collections_exists (Services := sim_services);
  collections_create := collections_create (Services := sim_services);
  time_sleep := time_sleep (Services := sim_services);
  data_insert := data_insert (Services := sim_services);
  query_near_vector name near limit w := (inr incomplete_objects, w);
  chat_completions_create :=
    chat_completions_create (Services := sim_services);
|}.

(** ** document_processing/loaders.py *)

(** What [open(path, "r", encoding=...)] followed by [read()] can raise:
    [UnicodeDecodeError], which [load_txt] catches, or anything else, which
    it does not (an [OSError] for a missing file, the plain [UnicodeError]
    of a decoder, ...). *)
Inductive read_error : Type :=
| UnicodeDecodeError
| OtherError (msg : string).

(** What the loaders raise: their own [ValueError], or an exception of a
    call they make. *)
Inductive loader_exn : Type :=
| LoaderValueError (msg : string)
| LoaderOtherError (msg : string).

(** The file system and the parsing libraries, as the loaders see them.
    Reading does not change a file, so these are functions of the path. *)
Class FileSystem : Type := {
  (** [open(file_path, "r", encoding=encoding).read()] *)
  read_text : string -> string -> read_error + string;
  (** the pages [PdfReader] extracts, joined with newlines *)
  load_pdf : string -> loader_exn + string;
  (** the paragraphs [docx.Document] holds, joined with newlines *)
  load_docx : string -> loader_exn + string;
  (** [Path(file_path).suffix] *)
  path_suffix : string -> string;
  (** [str(Path(file_path))], as an f-string renders the path *)
  path_str : string -> string;
}.

Definition encodings_to_try : list string :=
  ["utf-8"; "utf-16"; "utf-16-le"; "latin-1"].

(** The [for encoding in encodings_to_try] loop of [load_txt]; [None] is
    the loop running off its end. *)
Fixpoint load_txt_loop `{FileSystem} (file_path : string)
    (encodings : list string) : option (loader_exn + string) :=
  match encodings with
  | [] => None
  | encoding :: rest =>
      match read_text file_path encoding with
      | inr text => Some (inr text)
      | inl UnicodeDecodeError => load_txt_loop file_path rest
      | inl (OtherError msg) => Some (inl (LoaderOtherError msg))
      end
  end.

Definition load_txt `{FileSystem} (file_path : string) : loader_exn + string :=
  match load_txt_loop file_path encodings_to_try with
  | Some result => result
  | None =>
      inl (LoaderValueError ("Could not decode file " +:+ path_str file_path
                             +:+ " with any known encoding"))
  end.

(** [c.lower()] for one character.  Characters are bytes here: [A] .. [Z]
    change, and a byte of a non-ASCII character stays as it is (no such
    character lower-cases into the letters of the suffixes compared
    below). *)
Definition lower_ascii (c : ascii) : ascii :=
  let n := nat_of_ascii c in
  if (65 <=? n)%nat && (n <=? 90)%nat then ascii_of_nat (n + 32) else c.

(** [s.lower()]. *)
Fixpoint lower (s : string) : string :=
  match s with
  | EmptyString => EmptyString
  | String c rest => String (lower_ascii c) (lower rest)
  end.

(** [load_document] of loaders.py: dispatch on the lower-cased suffix. *)
Definition loaders_load_document `{FileSystem} (file_path : string)
    : loader_exn + string :=
  let suffix := path_suffix file_path in
  let lowered := lower suffix in
  if String.eqb lowered ".pdf" then load_pdf file_path
  else if String.eqb lowered ".docx" then load_docx file_path
  else if String.eqb lowered ".txt" then load_txt file_path
  else inl (LoaderValueError ("Unsupported file type: " +:+ suffix)).

(** A file system with a UTF-16 text file, a Latin-1 text file that the
    UTF-16 decoder refuses for want of a byte order mark, and nothing
    else. *)
Definition sample_fs : FileSystem := {|
  read_text path encoding :=
    if String.eqb path "notes.txt" then
      if String.eqb encoding "utf-8" then inl UnicodeDecodeError
      else if String.eqb encoding "utf-16" then inr "hello"
      else inr "h e l l o "
    else if String.eqb path "latin.txt" then
      if String.eqb encoding "utf-8" then inl UnicodeDecodeError
      else if String.eqb encoding "utf-16" then
        inl (OtherError "UTF-16 stream does not start with BOM")
      else inr "cafe au lait"
    else inl (OtherError "No such file or directory");
  load_pdf path := inr "pdf text";
  load_docx path := inr "docx text";
  path_suffix path :=
    if String.eqb path "REPORT.PDF" then ".PDF" else ".txt";
  path_str path := path;
|}.

(** ** app.py: the upload filter *)

(** The part after the last ['.'], if there is a ['.']:
    [filename.rsplit('.', 1)[1]]. *)
Fixpoint after_last_dot (filename : string) : option string :=
  match filename with
  | EmptyString => None
  | String c rest =>
      match after_last_dot rest with
      | Some ext => Some ext
      | None => if Ascii.eqb c "." then Some rest else None
      end
  end.

Definition ALLOWED_EXTENSIONS : list string := ["pdf"; "docx"; "txt"].

Definition allowed_file (filename : string) : bool :=
  match after_last_dot filename with
  | Some ext => existsb (String.eqb (lower ext)) ALLOWED_EXTENSIONS
  | None => false
  end.

(** ['.' in s]. *)
Fixpoint has_dot (s : string) : bool :=
  match s with
  | EmptyString => false
  | String c rest => Ascii.eqb c "." || has_dot rest
  end.

(** * Properties *)

(** ** Chunker *)

Section ChunkerFacts.

Local Ltac zb :=
  repeat match goal with
  | |- context [?a <? ?b] => destruct (Z.ltb_spec a b)
  | |- context [?a <=? ?b] => destruct (Z.leb_spec a b)
  end; try lia.

Lemma len_nonneg text : 0 <= len text.
Proof. unfold len. lia. Qed.

(** Inside the text, a Python slice is the clamped window. *)
Lemma py_slice_window text chunk_size start :
  0 < chunk_size -> 0 <= start < len text ->
  py_slice text start (start + chunk_size) = window text chunk_size start.
Proof.
  intros Hsz Hst. unfold py_slice, window, slice_bound.
  assert (Hlo : (start <? 0) = false) by (apply Z.ltb_ge; lia).
  assert (Hhi : (start + chunk_size <? 0) = false) by (apply Z.ltb_ge; lia).
  rewrite Hlo, Hhi.
  assert (Hne : (Z.min start (len text)
                 <? Z.min (start + chunk_size) (len text)) = true)
    by (apply Z.ltb_lt; lia).
  rewrite Hne. f_equal; lia.
Qed.

(** The window really is the characters [start .. min(start+size,len)-1]. *)
Lemma window_get text chunk_size start (p : nat) :
  0 <= start ->
  (Z.of_nat p < Z.min (start + chunk_size) (len text) - start) ->
  String.get p (window text chunk_size start)
  = String.get (p + Z.to_nat start) text.
Proof.
  intros Hst Hp. unfold window. apply substring_correct1. lia.
Qed.

Lemma window_get_past text chunk_size start (p : nat) :
  (Z.min (start + chunk_size) (len text) - start <= Z.of_nat p) ->
  String.get p (window text chunk_size start) = None.
Proof.
  intros Hp. unfold window. apply substring_correct2. lia.
Qed.

(** Number of cursor positions below [n] when the cursor moves by [step]. *)
Lemma starts_count n step (k : nat) :
  0 < step -> 0 <= n ->
  (Z.of_nat k * step < n <-> (k < Z.to_nat ((n + step - 1) / step))%nat).
Proof.
  intros Hs Hn.
  assert (Hq : 0 <= (n + step - 1) / step) by (apply Z.div_pos; lia).
  split; intros H.
  - assert (Z.of_nat k + 1 <= (n + step - 1) / step); [|lia].
    apply Z.div_le_lower_bound; lia.
  - assert (Z.of_nat k < (n + step - 1) / step) as Hk by lia.
    assert (Hm := Z.mul_div_le (n + step - 1) step Hs). nia.
Qed.

Lemma starts_count_le n step :
  0 < step -> 0 <= n -> (Z.to_nat ((n + step - 1) / step) <= Z.to_nat n)%nat.
Proof.
  intros Hs Hn.
  assert ((n + step - 1) / step <= n); [|lia].
  destruct (Z.eq_dec n 0) as [->|].
  - rewrite Z.div_small; lia.
  - assert ((n + step - 1) / step < n + 1); [|lia].
    apply Z.div_lt_upper_bound; nia.
Qed.

(** What the members of [window_starts] are: the multiples of [step] that
    lie below [n]. *)
Lemma window_starts_elem n step s :
  0 < step -> 0 <= n ->
  s ∈ window_starts n step <-> (exists k : nat, s = Z.of_nat k * step) /\ s < n.
Proof.
  intros Hs Hn. unfold window_starts. rewrite list_elem_of_fmap. split.
  - intros (k & -> & Hk). apply elem_of_seq in Hk. split; [eauto|].
    apply starts_count; lia.
  - intros [[k ->] Hlt]. exists k. split; [done|].
    apply elem_of_seq. apply starts_count in Hlt; lia.
Qed.

(** The loop, started at the [k]-th cursor position with enough fuel for
    the positions that remain, appends exactly the remaining windows. *)
Lemma chunk_loop_windows text chunk_size chunk_overlap :
  0 < chunk_size -> 0 <= chunk_overlap < chunk_size ->
  let step := chunk_size - chunk_overlap in
  let n := Z.to_nat ((len text + step - 1) / step) in
  forall (m k fuel : nat) chunks,
    (k + m = n)%nat -> (m <= fuel)%nat ->
    chunk_loop fuel text chunk_size chunk_overlap chunks (Z.of_nat k * step)
    = Some (chunks ++
            (window text chunk_size <$>
               ((fun i => Z.of_nat i * step) <$> seq k m))).
Proof.
  intros Hsz Hov step n. subst n.
  assert (Hstep : 0 < step) by (unfold step; lia).
  assert (Hlen := len_nonneg text).
  induction m as [|m IH]; intros k fuel chunks Hk Hfuel.
  - assert (~ Z.of_nat k * step < len text) as Hge.
    { rewrite starts_count by lia. lia. }
    destruct fuel; simpl; zb; by rewrite app_nil_r.
  - assert (Z.of_nat k * step < len text) as Hlt.
    { apply starts_count; lia. }
    destruct fuel as [|fuel]; [lia|]. simpl.
    destruct (Z.ltb_spec (Z.of_nat k * step) (len text)); [|lia].
    replace (Z.of_nat k * step + chunk_size - chunk_overlap)
      with (Z.of_nat (S k) * step) by (unfold step; lia).
    rewrite IH by lia.
    rewrite py_slice_window by lia.
    by rewrite <- app_assoc.
Qed.

(** Progress: when the cursor advances by at least one, [len - start]
    iterations suffice from any cursor position. *)
Lemma chunk_loop_enough_fuel text chunk_size chunk_overlap :
  1 <= chunk_size - chunk_overlap ->
  forall (fuel : nat) chunks start,
    (Z.to_nat (len text - start) <= fuel)%nat ->
    exists out, chunk_loop fuel text chunk_size chunk_overlap chunks start
                = Some out.
Proof.
  intros Hstep. induction fuel as [|fuel IH]; intros chunks start Hf; simpl.
  - destruct (Z.ltb_spec start (len text)); [lia|eauto].
  - destruct (Z.ltb_spec start (len text)); [|eauto].
    apply IH. lia.
Qed.

(** No progress: when the cursor does not advance, no amount of fuel ends
    the loop. *)
Lemma chunk_loop_diverges text chunk_size chunk_overlap :
  chunk_size - chunk_overlap <= 0 ->
  forall (fuel : nat) chunks start,
    start < len text ->
    chunk_loop fuel text chunk_size chunk_overlap chunks start = None.
Proof.
  intros Hstep. induction fuel as [|fuel IH]; intros chunks start Hs; simpl;
    destruct (Z.ltb_spec start (len text)); try lia; [done|].
  apply IH. lia.
Qed.

(** More fuel never changes an answer. *)
Lemma chunk_loop_fuel_mono text chunk_size chunk_overlap :
  forall (fuel fuel' : nat) chunks start out,
    (fuel <= fuel')%nat ->
    chunk_loop fuel text chunk_size chunk_overlap chunks start = Some out ->
    chunk_loop fuel' text chunk_size chunk_overlap chunks start = Some out.
Proof.
  induction fuel as [|fuel IH]; intros fuel' chunks start out Hle; simpl.
  - destruct (Z.ltb_spec start (len text)); [done|].
    intros [= <-]. destruct fuel'; simpl; zb; done.
  - destruct fuel' as [|fuel']; [lia|]. simpl.
    destruct (Z.ltb_spec start (len text)); [|done].
    apply IH. lia.
Qed.

(** With a valid configuration [chunk_text] has a result. *)
Lemma chunk_text_total text chunk_size chunk_overlap :
  0 < chunk_size -> 0 <= chunk_overlap < chunk_size ->
  exists chunks, chunk_text text chunk_size chunk_overlap = Some chunks.
Proof.
  intros Hsz Hov. unfold chunk_text, chunk_text_fuel.
  destruct (String.eqb text ""); [eauto|].
  destruct (len text <=? chunk_size); [eauto|].
  apply chunk_loop_enough_fuel; unfold len; lia.
Qed.

End ChunkerFacts.

(** C1.  For every text and every [chunk_size > 0] and
    [0 <= chunk_overlap < chunk_size], [chunk_text] returns: the empty list
    for the empty text; else [[text]] when [len(text) <= chunk_size]; else,
    from left to right, the windows [text[start : start+chunk_size]] (end
    clamped to [len(text)]) at the cursor positions
    [0, step, 2*step, ...] below [len(text)], where
    [step = chunk_size - chunk_overlap].  ([window_starts_elem] says which
    positions these are, [window_get] which characters a window holds.) *)
Theorem chunk_text_windows text chunk_size chunk_overlap :
  0 < chunk_size -> 0 <= chunk_overlap < chunk_size ->
  chunk_text text chunk_size chunk_overlap
  = Some (chunk_text_spec text chunk_size chunk_overlap).
Proof.
  intros Hsz Hov. unfold chunk_text, chunk_text_fuel, chunk_text_spec.
  destruct (String.eqb text "") eqn:He; [done|].
  destruct (Z.leb_spec (len text) chunk_size) as [|Hlong]; [done|].
  pose proof (chunk_loop_windows text chunk_size chunk_overlap Hsz Hov) as L.
  cbv zeta in L.
  set (n := Z.to_nat ((len text + (chunk_size - chunk_overlap) - 1)
                      / (chunk_size - chunk_overlap))) in *.
  specialize (L n 0%nat (String.length text) [] eq_refl).
  rewrite Nat2Z.inj_0, Z.mul_0_l, app_nil_l in L. rewrite L; [done|].
  pose proof (starts_count_le (len text) (chunk_size - chunk_overlap)) as B.
  unfold len in *. subst n. lia.
Qed.

Lemma chunk_text_windows_witness :
  chunk_text "ABCDEFGHIJ" 4 1 = Some (chunk_text_spec "ABCDEFGHIJ" 4 1).
Proof. apply chunk_text_windows; lia. Defined.

(** C2, as the code has it.  [chunk_text("ABCDEFGHIJ", 4, 1)] returns four
    chunks: the cursor takes the values 0, 3, 6 and 9, and 9 is still below
    [len(text) = 10], so the one-character window ["J"] is emitted too. *)
Theorem chunk_text_example :
  chunk_text "ABCDEFGHIJ" 4 1 = Some ["ABCD"; "DEFG"; "GHIJ"; "J"].
Proof. vm_compute. reflexivity. Qed.

(** The three-chunk list of the specification is not what is returned. *)
Lemma chunk_text_example_not_three :
  chunk_text "ABCDEFGHIJ" 4 1 <> Some ["ABCD"; "DEFG"; "GHIJ"].
Proof. vm_compute. discriminate. Qed.

(** C9.  For every text and every [chunk_size > 0] and
    [0 <= chunk_overlap < chunk_size], [chunk_text] terminates: the cursor
    advances by [chunk_size - chunk_overlap >= 1] per iteration, so
    [len(text)] iterations (or any larger number) let the loop reach
    [start >= len(text)] and return. *)
Theorem chunk_text_terminates text chunk_size chunk_overlap :
  0 < chunk_size -> 0 <= chunk_overlap < chunk_size ->
  forall fuel : nat,
    (String.length text <= fuel)%nat ->
    exists chunks,
      chunk_text_fuel fuel text chunk_size chunk_overlap = Some chunks.
Proof.
  intros Hsz Hov fuel Hfuel. unfold chunk_text_fuel.
  destruct (String.eqb text ""); [eauto|].
  destruct (len text <=? chunk_size); [eauto|].
  apply chunk_loop_enough_fuel; unfold len; lia.
Qed.

Lemma chunk_text_terminates_witness :
  exists chunks, chunk_text_fuel 10 "ABCDEFGHIJ" 4 1 = Some chunks.
Proof. apply chunk_text_terminates; simpl; lia. Defined.

(** Without the constraint the loop need not end: when the overlap is not
    below the chunk size the cursor never moves forward. *)
Lemma chunk_text_no_progress text chunk_size chunk_overlap (fuel : nat) :
  0 < chunk_size -> chunk_size <= chunk_overlap -> chunk_size < len text ->
  chunk_text_fuel fuel text chunk_size chunk_overlap = None.
Proof.
  intros Hsz Hov Hlong. unfold chunk_text_fuel.
  destruct (String.eqb_spec text "") as [->|_].
  - unfold len in Hlong. simpl in Hlong. lia.
  - destruct (Z.leb_spec (len text) chunk_size); [lia|].
    apply chunk_loop_diverges; lia.
Qed.

(** ** Vector store client *)

Section StoreFacts.
Context {W : Type} `{Services W}.

Lemma py_getitem_nat {A} (l : list A) (k : nat) (st : state W) :
  py_getitem l (Z.of_nat k) st
  = match l !! k with
    | Some x => (Ret x, st)
    | None => (Raise (IndexError "list index out of range"), st)
    end.
Proof.
  unfold py_getitem.
  destruct (Z.ltb_spec (Z.of_nat k) 0) as [|_]; [lia|].
  destruct (Z.leb_spec 0 (Z.of_nat k)) as [_|]; [|lia].
  destruct (Z.ltb_spec (Z.of_nat k) (Z.of_nat (length l))) as [Hlt|Hge];
    simpl; rewrite ?Nat2Z.id.
  - destruct (l !! k) eqn:E; [done|].
    apply lookup_ge_None in E. lia.
  - rewrite (proj2 (lookup_ge_None l k)) by lia. done.
Qed.

(** The loop with a metadata list that is too short: it stops with
    [IndexError] at the first index past the list, after one insertion per
    metadata entry. *)
Lemma add_documents_loop_short self (md : list (gmap string pyval)) :
  insert_ok W -> md <> [] ->
  forall (l : list (string * vector)) (k : nat) ids (st : state W),
    (k <= length md)%nat -> (length md < k + length l)%nat ->
    exists msg st',
      add_documents_loop self (Some md)
        (zip (Z.of_nat <$> seq k (length l)) l) ids st
      = (Raise (IndexError msg), st') /\
      trace st' = trace st ++
        zip_with (insert_event (class_name self))
                 (zip (Z.of_nat <$> seq k (length l)) l) (drop k md).
Proof.
  intros Hins Hne. induction l as [|[text vec] l IH]; intros k ids st Hk Hlen.
  - simpl in Hlen. lia.
  - simpl. destruct md as [|m0 md'] eqn:Emd; [done|]. rewrite <- Emd in *.
    unfold bind at 1. rewrite py_getitem_nat.
    destruct (md !! k) as [meta|] eqn:Ek.
    + rewrite (drop_S _ _ _ Ek). simpl.
      unfold bind at 1, perform.
      destruct (Hins (class_name self)
                  {| content := text;
                     source := default (PyStr "unknown") (meta !! "source");
                     chunk_index :=
                       default (PyInt (Z.of_nat k)) (meta !! "chunk_index") |}
                  vec (world st)) as (uuid & w' & ->).
      apply lookup_lt_Some in Ek.
      destruct (IH (S k) (ids ++ [uuid])
                  (State w' (trace st ++
                     [insert_event (class_name self)
                        (Z.of_nat k, (text, vec)) meta])))
        as (msg & st' & Hrun & Htr); [lia|simpl in *; lia|].
      exists msg, st'. split; [exact Hrun|].
      rewrite Htr. simpl. by rewrite <- app_assoc.
    + apply lookup_ge_None in Ek.
      rewrite drop_ge by lia.
      eexists _, st. split; [reflexivity|].
      simpl. by rewrite app_nil_r.
Qed.

(** One object: either it is shown, or something is missing in it. *)
Lemma format_result_shown obj r :
  format_result obj = inr r -> shown_as obj r /\ missing_in obj = None.
Proof.
  unfold format_result, shown_as, missing_in.
  destruct (obj_properties obj !! "content") as [c|]; [|done].
  destruct (obj_properties obj !! "source") as [src|]; [|done].
  destruct (obj_properties obj !! "chunk_index") as [i|]; [|done].
  destruct (obj_distance obj) as [d|]; [|done].
  intros [= <-]. simpl. split; [by eauto 10|].
  repeat case_decide; done.
Qed.

Lemma format_result_missing obj e :
  format_result obj = inl e -> missing_in obj = Some e.
Proof.
  unfold format_result, missing_in.
  destruct (obj_properties obj !! "content") as [c|];
    [|intros [= <-]; by repeat case_decide].
  destruct (obj_properties obj !! "source") as [src|];
    [|intros [= <-]; by repeat case_decide].
  destruct (obj_properties obj !! "chunk_index") as [i|];
    [|intros [= <-]; by repeat case_decide].
  destruct (obj_distance obj) as [d|]; [done|].
  intros [= <-]. by repeat case_decide.
Qed.

(** The formatting loop: it makes no call; it returns one result per
    object, in order, or raises what the first incomplete object lacks. *)
Lemma format_results_run objs :
  forall acc (st : state W),
    snd (format_results objs acc st) = st /\
    match fst (format_results objs acc st) with
    | Ret out => exists rs, out = acc ++ rs /\ Forall2 shown_as objs rs
    | Raise e =>
        exists before obj rest,
          objs = before ++ obj :: rest /\
          Forall (fun o => missing_in o = None) before /\
          missing_in obj = Some e
    | Diverge => False
    end.
Proof.
  induction objs as [|obj objs IH]; intros acc st.
  - simpl. split; [done|]. exists []. by rewrite app_nil_r.
  - cbn [format_results]. destruct (format_result obj) as [e|r] eqn:E.
    + simpl. split; [done|]. exists [], obj, objs.
      split; [done|]. split; [done|]. by apply format_result_missing.
    + apply format_result_shown in E as [Hshown Hfull].
      destruct (IH (acc ++ [r]) st) as [Hst Hr]. split; [done|].
      destruct (fst (format_results objs (acc ++ [r]) st)) as [out|e|];
        [| |done].
      * destruct Hr as (rs & -> & Hall). exists (r :: rs).
        split; [by rewrite <- app_assoc|by constructor].
      * destruct Hr as (before & o & rest & -> & Hb & Ho).
        exists (obj :: before), o, rest. split; [done|].
        split; [by constructor|done].
Qed.

(** [search] is one call to the server followed by the formatting loop. *)
Lemma search_run self near top_k (st : state W) :
  search self near top_k st
  = match query_near_vector (class_name self) near top_k (world st) with
    | (inl e, w) =>
        (Raise e,
         State w (trace st ++
                  [Event (CNearVector (class_name self) near top_k) (Some e)]))
    | (inr objs, w) =>
        (fst (format_results objs []
                (State w (trace st ++
                   [Event (CNearVector (class_name self) near top_k) None]))),
         State w (trace st ++
                  [Event (CNearVector (class_name self) near top_k) None]))
    end.
Proof.
  unfold search, bind, perform.
  destruct (query_near_vector _ _ _ _) as [[e|objs] w]; [done|].
  match goal with |- context [format_results objs [] ?s] =>
    pose proof (format_results_run objs [] s) as [Hst _];
    destruct (format_results objs [] s) as [r st'] end.
  simpl in *. subst. by destruct r.
Qed.

(** One provisioning attempt: it begins with the existence check, and it
    fails exactly when one of its calls raises. *)
Lemma create_collection_run self (st : state W) r st' :
  _create_collection self st = (r, st') ->
  exists tr,
    trace st' = trace st ++ tr /\
    retry_steps tr = [Attempt] /\
    match r with
    | Ret _ => raised tr = [] /\ retry_log tr = [Tried]
    | Raise e => raised tr = [e] /\ retry_log tr = [Tried; Failed e]
    | Diverge => False
    end.
Proof.
  unfold _create_collection, bind, perform.
  destruct (collections_exists (class_name self) (world st))
    as [[e|[|]] w]; simpl.
  - intros [= <- <-]. by eexists [_].
  - intros [= <- <-]. by eexists [_].
  - destruct (collections_create (class_name self) w) as [[e|[]] w2];
      intros [= <- <-]; eexists [_; _]; simpl; by rewrite <- app_assoc.
Qed.

Lemma retry_log_app tr1 tr2 :
  retry_log (tr1 ++ tr2) = retry_log tr1 ++ retry_log tr2.
Proof. apply flat_map_app. Qed.

Lemma retry_steps_app tr1 tr2 :
  retry_steps (tr1 ++ tr2) = retry_steps tr1 ++ retry_steps tr2.
Proof. apply omap_app. Qed.

Lemma raised_app tr1 tr2 : raised (tr1 ++ tr2) = raised tr1 ++ raised tr2.
Proof. apply omap_app. Qed.

Lemma failed_attempts_S first n :
  failed_attempts first (S n)
  = [Attempt; Wait (2 ^ first)] ++ failed_attempts (first + 1) n.
Proof.
  unfold failed_attempts. simpl. rewrite Z.add_0_r. do 3 f_equal.
  rewrite <- fmap_S_seq, <- list_fmap_compose.
  apply list_fmap_ext. intros _ k _. simpl. lia.
Qed.

(** The retry loop over the attempts [first, first+1, ..., first+n-1]:
    some attempts fail, each followed by its wait; then either an attempt
    succeeds and the loop returns, or no attempt is left. *)
Lemma retry_loop_run self :
  forall (n : nat) (first : Z) last_error (st : state W) r st',
    retry_loop self ((fun k => first + Z.of_nat k) <$> seq 0 n)
               last_error st = (r, st') ->
    exists tr errs,
      trace st' = trace st ++ tr /\
      raised tr = errs /\
      match r with
      | Ret (inl _) =>
          (length errs < n)%nat /\
          retry_steps tr = failed_attempts first (length errs) ++ [Attempt] /\
          retry_log tr = failed_log first errs ++ [Tried]
      | Ret (inr e) =>
          length errs = n /\
          retry_steps tr = failed_attempts first n /\
          retry_log tr = failed_log first errs /\
          e = match last errs with
              | Some x => Some x
              | None => last_error
              end
      | _ => False
      end.
Proof.
  induction n as [|n IH]; intros first last_error st r st' Hrun.
  - injection Hrun as <- <-. exists [], []. simpl. by rewrite app_nil_r.
  - change ((fun k => first + Z.of_nat k) <$> seq 0 (S n))
      with ((first + Z.of_nat 0) ::
            ((fun k => first + Z.of_nat k) <$> seq 1 n)) in Hrun.
    rewrite <- fmap_S_seq, <- list_fmap_compose in Hrun.
    rewrite (list_fmap_ext _ (fun k => (first + 1) + Z.of_nat k) (seq 0 n))
      in Hrun by (intros; simpl; lia).
    rewrite Z.add_0_r in Hrun.
    cbn [retry_loop] in Hrun. unfold try_except, bind at 1 in Hrun.
    destruct (_create_collection self st) as [r1 st1] eqn:E1.
    apply create_collection_run in E1 as (tr1 & Htr1 & Hst1 & Hr1).
    destruct r1 as [[]|e|]; [| |done].
    + injection Hrun as <- <-. destruct Hr1 as [Hn Hl].
      exists tr1, []. split; [done|]. split; [done|].
      split; [simpl; lia|]. by rewrite Hst1, Hl.
    + destruct Hr1 as [Hn Hl].
      unfold bind at 1, perform in Hrun. simpl in Hrun.
      apply IH in Hrun as (tr2 & errs & Htr2 & Herrs & Hr2). simpl in Htr2.
      exists (tr1 ++ [Event (CSleep (2 ^ first)) None] ++ tr2), (e :: errs).
      split; [rewrite Htr2, Htr1; by rewrite <- !app_assoc|].
      rewrite !retry_steps_app, !raised_app, !retry_log_app, Hst1, Hn, Hl.
      cbn [length]. rewrite ?failed_attempts_S.
      split; [simpl; by rewrite Herrs|].
      destruct r as [[[]|e']| |]; [| |done..].
      * destruct Hr2 as (Hlen & Hs & Hlog).
        split; [lia|]. rewrite Hs, Hlog. simpl.
        split; [by rewrite <- ?app_assoc|done].
      * destruct Hr2 as (Hlen & Hs & Hlog & He).
        split; [lia|]. rewrite Hs, Hlog. simpl.
        split; [done|]. split; [done|]. rewrite He.
        destruct errs as [|x xs]; [done|].
        rewrite last_cons_cons.
        destruct (last (x :: xs)) eqn:El; [done|]. by apply last_None in El.
Qed.

(** When every attempt fails, the loop runs off its end. *)
Lemma retry_loop_all_fail self :
  (forall s : state W, exists e s', _create_collection self s = (Raise e, s')) ->
  forall attempts_left last_error (st : state W),
    exists e st', retry_loop self attempts_left last_error st = (Ret (inr e), st').
Proof.
  intros Hfail. induction attempts_left as [|a rest IH]; intros le st.
  - by eexists _, _.
  - cbn [retry_loop]. unfold try_except, bind at 1.
    destruct (Hfail st) as (e & s' & ->).
    unfold bind at 1, perform. simpl. apply IH.
Qed.

Lemma attempts_failed first n steps :
  length (List.filter is_attempt (failed_attempts first n ++ steps))
  = (n + length (List.filter is_attempt steps))%nat.
Proof.
  revert first. induction n as [|n IH]; intros first; [done|].
  rewrite failed_attempts_S, <- app_assoc. simpl. by rewrite IH.
Qed.

Lemma py_range_from_0 n :
  py_range n = (fun k => 0 + Z.of_nat k) <$> seq 0 (Z.to_nat n).
Proof. unfold py_range. by apply list_fmap_ext. Qed.

Lemma sim_insert_ok : insert_ok sim.
Proof. intros name props vec w. by eexists _, _. Qed.

End StoreFacts.

(** C3.  When [texts] and [embeddings] differ in length, [add_documents]
    raises [ValueError] and leaves the state as it found it: no call is
    made, so nothing is inserted. *)
Theorem add_documents_length_mismatch {W : Type} `{Services W}
    self (texts : list string) (embeddings : list vector) metadata
    (st : state W) :
  length texts <> length embeddings ->
  exists msg,
    add_documents self texts embeddings metadata st
    = (Raise (ValueError msg), st).
Proof.
  intros Hne. unfold add_documents.
  destruct (Nat.eqb_spec (length texts) (length embeddings)); [done|].
  simpl. by eexists.
Qed.

Lemma add_documents_length_mismatch_witness :
  exists msg,
    add_documents sim_store ["a"; "b"] [[]] None sim_start
    = (Raise (ValueError msg), sim_start).
Proof. apply add_documents_length_mismatch. simpl. lia. Defined.

(** C10.  With [n] texts, [n] embeddings and a non-empty metadata list of
    [m < n] entries, on a server that accepts insertions, [add_documents]
    raises [IndexError]; before that it has inserted one record for each of
    the first [m] items and made no other call, so these [m] records stay
    in the store.  No default is substituted for a missing entry. *)
Theorem add_documents_short_metadata {W : Type} `{Services W}
    self (texts : list string) (embeddings : list vector)
    (metadata : list (gmap string pyval)) (st : state W) :
  insert_ok W ->
  length texts = length embeddings ->
  metadata <> [] ->
  (length metadata < length texts)%nat ->
  exists msg st',
    add_documents self texts embeddings (Some metadata) st
    = (Raise (IndexError msg), st') /\
    trace st' = trace st ++
      zip_with (insert_event (class_name self))
               (enumerate (zip texts embeddings)) metadata /\
    length (zip_with (insert_event (class_name self))
                     (enumerate (zip texts embeddings)) metadata)
    = length metadata.
Proof.
  intros Hins Hlen Hne Hshort. unfold add_documents.
  destruct (Nat.eqb_spec (length texts) (length embeddings)); [|done].
  simpl. unfold enumerate, py_range. rewrite Nat2Z.id.
  destruct (add_documents_loop_short self metadata Hins Hne
              (zip texts embeddings) 0 [] st) as (msg & st' & Hrun & Htr).
  { lia. }
  { rewrite length_zip. lia. }
  exists msg, st'. rewrite drop_0 in Htr. split; [done|]. split; [done|].
  rewrite length_zip_with, length_zip, length_fmap, length_seq, length_zip.
  lia.
Qed.

Lemma add_documents_short_metadata_witness :
  exists msg st',
    add_documents sim_store ["a"; "b"; "c"] [[]; []; []]
                  (Some [∅; {[ "source" := PyStr "s" ]}]) sim_start
    = (Raise (IndexError msg), st') /\
    trace st' = trace sim_start ++
      zip_with (insert_event (class_name sim_store))
               (enumerate (zip ["a"; "b"; "c"] [[]; []; []]))
               [∅; {[ "source" := PyStr "s" ]}] /\
    length (zip_with (insert_event (class_name sim_store))
                     (enumerate (zip ["a"; "b"; "c"] [[]; []; []]))
                     [∅; {[ "source" := PyStr "s" ]}])
    = length [(∅ : gmap string pyval); {[ "source" := PyStr "s" ]}].
Proof.
  apply add_documents_short_metadata;
    [exact sim_insert_ok | reflexivity | discriminate | simpl; lia].
Defined.


(** What a result's score is at a distance below half an ulp of 1. *)
Example score_rounds :
  score <$> (match format_result
                     (stored_object "x" "geo.txt" 0 0x1p-60%float) with
             | inr r => Some r
             | inl _ => None
             end) = Some 1%float.
Proof. vm_compute. reflexivity. Qed.


(** C7.  Provisioning makes at most [max_retries] attempts (at most 5 with
    the default).  Seen from
    outside, a run is: attempt 0 is tried and fails, wait [2^0]; attempt 1
    is tried and fails, wait [2^1]; and so on.  It returns only when an
    attempt is tried and none of its calls fails, after fewer than
    [max_retries] failed attempts, and without a wait after it.  Otherwise
    [max_retries] attempts have failed and it raises [ConnectionError]
    carrying the exception of the last failed attempt, with no attempt
    after it.  In particular, against a server on which every attempt
    fails, it raises [ConnectionError]. *)
Theorem create_collection_with_retry_backoff {W : Type} `{Services W}
    self (st : state W) :
  let run := _create_collection_with_retry self st in
  exists tr errs,
    trace (snd run) = trace st ++ tr /\
    raised tr = errs /\
    (attempts tr <= Z.to_nat (max_retries self))%nat /\
    match fst run with
    | Ret _ =>
        (length errs < Z.to_nat (max_retries self))%nat /\
        retry_steps tr = failed_attempts 0 (length errs) ++ [Attempt] /\
        retry_log tr = failed_log 0 errs ++ [Tried]
    | Raise e =>
        length errs = Z.to_nat (max_retries self) /\
        retry_steps tr = failed_attempts 0 (Z.to_nat (max_retries self)) /\
        retry_log tr = failed_log 0 errs /\
        e = ConnectionError (max_retries self) (last errs)
    | Diverge => False
    end /\
    ((forall s : state W,
        exists e s', _create_collection self s = (Raise e, s')) ->
     fst run = Raise (ConnectionError (max_retries self) (last errs))) /\
    (max_retries self = default_max_retries -> (attempts tr <= 5)%nat).
Proof.
  intros run. subst run. unfold _create_collection_with_retry, bind.
  rewrite py_range_from_0.
  destruct (retry_loop self _ None st) as [r st'] eqn:Hrun.
  pose proof Hrun as Hrun'.
  apply retry_loop_run in Hrun as (tr & errs & Htr & Herrs & Hr).
  exists tr, errs.
  destruct r as [[[]|le]| |]; simpl; [| |done..].
  - destruct Hr as (Hlen & Hs & Hlog).
    split; [done|]. split; [done|]. split.
    { unfold attempts. rewrite Hs, attempts_failed. simpl. lia. }
    split; [done|]. split.
    + intros Hfail.
      destruct (retry_loop_all_fail self Hfail
                  ((fun k => 0 + Z.of_nat k)
                     <$> seq 0 (Z.to_nat (max_retries self)))
                  None st) as (e & s' & Hall).
      rewrite Hall in Hrun'. discriminate.
    + intros Hd. unfold attempts. rewrite Hs, attempts_failed.
      rewrite Hd in Hlen. unfold default_max_retries in Hlen. simpl. lia.
  - destruct Hr as (Hlen & Hs & Hlog & He).
    assert (le = last errs) as -> by (rewrite He; by destruct (last errs)).
    split; [done|]. split; [done|]. split.
    { unfold attempts. rewrite Hs, <- (app_nil_r (failed_attempts _ _)).
      rewrite attempts_failed. simpl. lia. }
    split; [done|]. split; [done|].
    intros Hd. unfold attempts.
    rewrite Hs, <- (app_nil_r (failed_attempts _ _)), attempts_failed.
    rewrite Hd. unfold default_max_retries. simpl. lia.
Qed.

(** ** Pipeline orchestrator *)

Section PipelineFacts.
Context {W : Type} `{Services W}.

Section Silent.
Context {X : Type} (view : event -> option X).

Lemma silent_ret {A} (a : A) : silent (W:=W) view (ret a).
Proof. by intros st. Qed.

Lemma silent_raise {A} e : silent (W:=W) (A:=A) view (raise e).
Proof. by intros st. Qed.

Lemma silent_bind {A B} (m : M W A) (k : A -> M W B) :
  silent view m -> (forall a, silent view (k a)) -> silent view (bind m k).
Proof.
  intros Hm Hk st. unfold bind. destruct (Hm st) as [Hd Ht].
  destruct (m st) as [[a|e|] st1]; simpl in *; [|done..].
  destruct (Hk a st1) as [Hd' Ht']. split; [done|]. by rewrite Ht', Ht.
Qed.

Lemma silent_perform {A} c (f : W -> (exn + A) * W) :
  (forall e, view (Event c e) = None) -> silent view (perform c f).
Proof.
  intros Hc st. unfold perform.
  destruct (f (world st)) as [[e|a] w]; simpl;
    (split; [done|]); by rewrite omap_app; simpl; rewrite Hc, app_nil_r.
Qed.

Lemma silent_py_getitem {A} (l : list A) i :
  silent (W:=W) view (py_getitem l i).
Proof.
  unfold py_getitem.
  match goal with |- context [match ?o with Some _ => _ | None => _ end] =>
    destruct o end; [apply silent_ret | apply silent_raise].
Qed.

End Silent.

Lemma embed_batch_silent {X} (view : event -> option X) texts :
  (forall t e, view (Event (CEmbedContent t) e) = None) ->
  silent view (embed_batch texts).
Proof.
  intros Hv. induction texts as [|text rest IH]; simpl.
  - apply silent_ret.
  - apply silent_bind; [by apply silent_perform|]. intros v.
    apply silent_bind; [done|]. intros vs. apply silent_ret.
Qed.

Lemma add_documents_silent {X} (view : event -> option X)
    self texts embeddings metadata :
  (forall n p v e, view (Event (CInsert n p v) e) = None) ->
  silent view (add_documents self texts embeddings metadata).
Proof.
  intros Hv. unfold add_documents.
  destruct (negb _); [apply silent_raise|].
  generalize (enumerate (zip texts embeddings)) ([] : list string).
  intros items. induction items as [|[i [text vec]] rest IH]; intros ids; simpl.
  - apply silent_ret.
  - apply silent_bind.
    + destruct metadata as [[|m0 md]|];
        [apply silent_ret | apply silent_py_getitem | apply silent_ret].
    + intros meta. apply silent_bind; [by apply silent_perform|].
      intros uuid. apply IH.
Qed.

Lemma format_results_silent {X} (view : event -> option X) objs :
  forall acc, silent (W:=W) view (format_results objs acc).
Proof.
  induction objs as [|obj objs IH]; intros acc; simpl.
  - apply silent_ret.
  - destruct (format_result obj); [apply silent_raise | apply IH].
Qed.

Lemma search_silent {X} (view : event -> option X) self near top_k :
  (forall n v k e, view (Event (CNearVector n v k) e) = None) ->
  silent view (search self near top_k).
Proof.
  intros Hv. unfold search. apply silent_bind; [by apply silent_perform|].
  intros objs. apply format_results_silent.
Qed.

Lemma retrieve_silent self question top_k :
  silent generate_view (retrieve self question top_k).
Proof.
  unfold retrieve, embed_query, embed.
  apply silent_bind; [by apply silent_perform|]. intros v.
  apply silent_bind; [by apply search_silent|]. intros rs.
  apply silent_ret.
Qed.

(** One document: it is loaded once, first; with a valid chunking
    configuration the call returns or raises. *)
Lemma ingest_document_run self path (st : state W) r st' :
  0 < chunk_size self -> 0 <= chunk_overlap self < chunk_size self ->
  ingest_document self path st = (r, st') ->
  r <> Diverge /\
  loaded_paths (trace st') = loaded_paths (trace st) ++ [path].
Proof.
  intros Hsz Hov. unfold ingest_document, bind at 1, perform.
  destruct (load_document path (world st)) as [[e|text] w].
  - intros [= <- <-]. split; [done|]. unfold loaded_paths.
    cbn [trace]. by rewrite omap_app.
  - destruct (chunk_text_total text _ _ Hsz Hov) as [chunks ->].
    set (st1 := State w (trace st ++ [Event (CLoadDocument path) None])).
    match goal with |- ?m st1 = _ -> _ =>
      assert (silent load_view m) as Hs end.
    { apply silent_bind; [apply silent_ret|]. intros chunks'.
      apply silent_bind; [by apply embed_batch_silent|]. intros vs.
      apply silent_bind; [by apply add_documents_silent|]. intros ids.
      apply silent_ret. }
    intros Hrun. destruct (Hs st1) as [Hd Ht]. rewrite Hrun in Hd, Ht.
    split; [done|]. unfold loaded_paths. simpl in Ht. rewrite Ht.
    unfold st1. cbn [trace]. by rewrite omap_app.
Qed.

(** The loop of [ingest_multiple] from a running total. *)
Lemma ingest_loop_run self :
  0 < chunk_size self -> 0 <= chunk_overlap self < chunk_size self ->
  forall paths total (st : state W),
    exists st',
      ingest_loop self paths total st
      = (Ret (total + ingested_total self paths st), st') /\
      loaded_paths (trace st') = loaded_paths (trace st) ++ paths.
Proof.
  intros Hsz Hov. induction paths as [|path rest IH]; intros total st.
  - exists st. simpl. unfold ret. split; [f_equal; f_equal; lia|].
    by rewrite app_nil_r.
  - simpl. unfold bind at 1, try_except, bind at 1.
    destruct (ingest_document self path st) as [r1 st1] eqn:E1.
    destruct (ingest_document_run self path st r1 st1 Hsz Hov E1) as [Hd Hl].
    destruct r1 as [chunks|e|]; simpl in *; [| |done].
    + destruct (IH (total + chunks) st1) as (st' & Hrun & Hp).
      exists st'. rewrite Hrun. split; [f_equal; f_equal; lia|].
      by rewrite Hp, Hl, <- app_assoc.
    + destruct (IH total st1) as (st' & Hrun & Hp).
      exists st'. rewrite Hrun. split; [done|].
      by rewrite Hp, Hl, <- app_assoc.
Qed.

End PipelineFacts.

(** C5.  If [retrieve(question, top_k)] returns the empty list, then
    [query(question, top_k)] returns the fixed message and ends in the
    state [retrieve] ended in; the prompts sent to the language model are
    those sent before the call: generation is not invoked. *)
Theorem query_nothing_found {W : Type} `{Services W}
    self question top_k (st st' : state W) :
  retrieve self question top_k st = (Ret [], st') ->
  query self question top_k st
  = (Ret "I couldn't find any relevant information to answer your question.",
     st') /\
  generated_prompts (trace st') = generated_prompts (trace st).
Proof.
  intros Hr. split.
  - unfold query, bind. by rewrite Hr.
  - destruct (retrieve_silent self question top_k st) as [_ Ht].
    by rewrite Hr in Ht.
Qed.

Lemma query_nothing_found_witness :
  query sim_pipeline "What is the capital?" 0 sim_start
  = (Ret "I couldn't find any relevant information to answer your question.",
     snd (retrieve sim_pipeline "What is the capital?" 0 sim_start)) /\
  generated_prompts
    (trace (snd (retrieve sim_pipeline "What is the capital?" 0 sim_start)))
  = generated_prompts (trace sim_start).
Proof. apply query_nothing_found. vm_compute. reflexivity. Defined.

(** C6.  With a valid chunking configuration, for every list of paths
    [ingest_multiple] returns (it neither raises nor runs forever); it
    loads the paths one after the other in input order, each once; and the
    value returned is the sum of the chunk counts of exactly those paths
    whose [ingest_document] returned, a path whose ingestion raised
    contributing nothing. *)
Theorem ingest_multiple_skips_failures {W : Type} `{Services W}
    self (file_paths : list string) (st : state W) :
  0 < chunk_size self -> 0 <= chunk_overlap self < chunk_size self ->
  exists st',
    ingest_multiple self file_paths st
    = (Ret (ingested_total self file_paths st), st') /\
    loaded_paths (trace st') = loaded_paths (trace st) ++ file_paths.
Proof.
  intros Hsz Hov. unfold ingest_multiple.
  destruct (ingest_loop_run self Hsz Hov file_paths 0 st) as (st' & Hrun & Hp).
  exists st'. by rewrite Hrun.
Qed.

Lemma ingest_multiple_skips_failures_witness :
  exists st',
    ingest_multiple sim_pipeline ["a.txt"; "missing.pdf"; "b.txt"] sim_start
    = (Ret (ingested_total sim_pipeline
              ["a.txt"; "missing.pdf"; "b.txt"] sim_start), st') /\
    loaded_paths (trace st')
    = loaded_paths (trace sim_start) ++ ["a.txt"; "missing.pdf"; "b.txt"].
Proof. apply ingest_multiple_skips_failures; simpl; lia. Defined.

(** The batch of the specification's example: the good paths give 4 and 1
    chunks, the bad one is skipped. *)
Example ingest_multiple_demo :
  fst (ingest_multiple sim_pipeline ["a.txt"; "missing.pdf"; "b.txt"]
                       sim_start) = Ret 5
  /\ fst (ingest_document sim_pipeline "missing.pdf" sim_start)
     = Raise (ValueError "Unsupported file type").
Proof. split; vm_compute; reflexivity. Qed.

(** C8, as the code has it.  An empty question is not rejected by the
    pipeline.  For every question, the empty one included, and every
    [top_k], [retrieve] calls the embedding model with the question as
    given; if that call raises, [retrieve] and [query] raise its exception;
    otherwise [retrieve] is the search of the store with the vector
    obtained and [top_k] (one [near_vector] call), and [query] answers from
    what that search gives.  Neither has a validation error of its own. *)
Theorem question_not_validated {W : Type} `{Services W}
    self question top_k (st : state W) :
  match embed_content question (world st) with
  | (inl e, w) =>
      let st1 :=
        State w (trace st ++ [Event (CEmbedContent question) (Some e)]) in
      retrieve self question top_k st = (Raise e, st1) /\
      query self question top_k st = (Raise e, st1)
  | (inr v, w) =>
      let st1 := State w (trace st ++ [Event (CEmbedContent question) None]) in
      let found := search (vector_store self) v top_k st1 in
      retrieve self question top_k st = found /\
      (exists raised_by_search,
         trace (snd found)
         = trace st1 ++
           [Event (CNearVector (class_name (vector_store self)) v top_k)
                  raised_by_search]) /\
      query self question top_k st
      = match found with
        | (Ret [], st2) =>
            (Ret "I couldn't find any relevant information to answer your question.",
             st2)
        | (Ret results, st2) => generate_answer self question results st2
        | (Raise e, st2) => (Raise e, st2)
        | (Diverge, st2) => (Diverge, st2)
        end
  end.
Proof.
  destruct (embed_content question (world st)) as [[e|v] w] eqn:Ee;
    cbn zeta.
  - assert (embed_query question st
            = (Raise e,
               State w (trace st ++ [Event (CEmbedContent question) (Some e)])))
      as Hemb by (unfold embed_query, embed, perform; by rewrite Ee).
    assert (retrieve self question top_k st
            = (Raise e,
               State w (trace st ++ [Event (CEmbedContent question) (Some e)])))
      as Hretr by (unfold retrieve, bind; by rewrite Hemb).
    split; [exact Hretr|]. unfold query, bind. by rewrite Hretr.
  - set (st1 := State w (trace st ++ [Event (CEmbedContent question) None])).
    assert (embed_query question st = (Ret v, st1)) as Hemb
      by (unfold embed_query, embed, perform; by rewrite Ee).
    assert (retrieve self question top_k st
            = search (vector_store self) v top_k st1) as Hretr.
    { unfold retrieve, bind. rewrite Hemb.
      by destruct (search _ _ _ _) as [[rs|e|] st2]. }
    split; [exact Hretr|]. split.
    + rewrite search_run.
      destruct (query_near_vector _ _ _ _) as [[e|objs] w2]; by eexists.
    + unfold query, bind. rewrite Hretr.
      by destruct (search _ _ _ _) as [[[|r rs]|e|] st2].
Qed.

(** The empty question is answered like any other: with the in-memory
    services, [retrieve("", 5)] returns the two stored passages, having
    embedded [""] and searched, and [query("", 5)] returns the model's
    answer; neither raises. *)
Lemma empty_question_not_rejected :
  fst (retrieve sim_pipeline "" 5 sim_start) = Ret canned_results /\
  fst (query sim_pipeline "" 5 sim_start) = Ret "Paris." /\
  embedded_texts (trace (snd (retrieve sim_pipeline "" 5 sim_start))) = [""] /\
  ~ (exists msg st',
       query sim_pipeline "" 5 sim_start = (Raise (ValueError msg), st')) /\
  ~ (exists msg st',
       retrieve sim_pipeline "" 5 sim_start = (Raise (ValueError msg), st')).
Proof.
  assert (fst (retrieve sim_pipeline "" 5 sim_start) = Ret canned_results)
    as Hr by (vm_compute; reflexivity).
  assert (fst (query sim_pipeline "" 5 sim_start) = Ret "Paris.") as Hq
    by (vm_compute; reflexivity).
  split; [exact Hr|]. split; [exact Hq|]. split; [by vm_compute|]. split.
  - intros (msg & st' & E). rewrite E in Hq. discriminate.
  - intros (msg & st' & E). rewrite E in Hr. discriminate.
Qed.

(** Two runs of the provisioning loop against the in-memory server: ready
    at the fourth request, and never ready. *)
Example provisioning_succeeds_on_fourth_attempt :
  let run := _create_collection_with_retry sim_store
               (State (Sim [] 3 false []) []) in
  fst run = Ret tt /\
  retry_steps (trace (snd run))
  = [Attempt; Wait 1; Attempt; Wait 2; Attempt; Wait 4; Attempt].
Proof. split; vm_compute; reflexivity. Qed.

Example provisioning_gives_up :
  let run := _create_collection_with_retry sim_store
               (State (Sim [] 9 false []) []) in
  fst run = Raise (ConnectionError 5 (Some (RemoteError "not ready"))) /\
  retry_steps (trace (snd run))
  = [Attempt; Wait 1; Attempt; Wait 2; Attempt; Wait 4; Attempt; Wait 8;
     Attempt; Wait 16].
Proof. split; vm_compute; reflexivity. Qed.

(** A metadata list that is too short, against the in-memory server: the
    first record is in the collection when [IndexError] is raised. *)
Example add_documents_partial_demo :
  let run := add_documents sim_store ["a"; "b"; "c"] [[]; []; []]
                           (Some [{[ "source" := PyStr "s" ]}]) sim_start in
  fst run = Raise (IndexError "list index out of range") /\
  inserted (world (snd run))
  = [({| content := "a"; source := PyStr "s"; chunk_index := PyInt 0 |}, [])].
Proof. split; vm_compute; reflexivity. Qed.

(** * Further properties *)

(** ** Chunker: sizes, coverage, reassembly *)

Section ChunkerMore.

Lemma substring_length s : forall n m : nat,
  String.length (substring n m s) = Nat.min m (String.length s - n).
Proof.
  induction s as [|c s IH]; intros [|n] [|m];
    cbn [substring String.length Nat.sub]; rewrite ?IH; lia.
Qed.

Lemma substring_all s : substring 0 (String.length s) s = s.
Proof. induction s as [|c s IH]; simpl; [done|by rewrite IH]. Qed.

Lemma substring_split s : forall n m1 m2 : nat,
  (substring n m1 s +:+ substring (n + m1) m2 s)%string
  = substring n (m1 + m2) s.
Proof.
  induction s as [|c s IH]; intros n m1 m2.
  - destruct n, m1, m2; done.
  - destruct n as [|n]; simpl.
    + destruct m1 as [|m1]; simpl; [done|]. by rewrite <- (IH 0%nat m1 m2).
    + apply IH.
Qed.

(** The result of [chunk_text] under a valid configuration, by cases. *)
Lemma chunk_text_cases text chunk_size chunk_overlap :
  0 < chunk_size -> 0 <= chunk_overlap < chunk_size ->
  chunk_text text chunk_size chunk_overlap
  = Some (chunk_text_spec text chunk_size chunk_overlap).
Proof.
  intros Hsz Hov. unfold chunk_text, chunk_text_fuel, chunk_text_spec.
  destruct (String.eqb text ""); [done|].
  destruct (Z.leb_spec (len text) chunk_size); [done|].
  pose proof (chunk_loop_windows text chunk_size chunk_overlap Hsz Hov
                _ 0%nat (String.length text) [] eq_refl) as L.
  rewrite Nat2Z.inj_0, Z.mul_0_l, app_nil_l in L. apply L.
  pose proof (starts_count_le (len text) (chunk_size - chunk_overlap)).
  unfold len in *. lia.
Qed.

Lemma window_length text chunk_size start :
  0 < chunk_size -> 0 <= start < len text ->
  1 <= Z.of_nat (String.length (window text chunk_size start)) <= chunk_size.
Proof.
  intros Hsz Hst. unfold window. rewrite substring_length.
  unfold len in *. lia.
Qed.

End ChunkerMore.

(** X1.  Under a valid configuration no chunk is empty and no chunk is
    longer than [chunk_size]. *)
Theorem chunk_text_chunk_sizes text chunk_size chunk_overlap chunks :
  0 < chunk_size -> 0 <= chunk_overlap < chunk_size ->
  chunk_text text chunk_size chunk_overlap = Some chunks ->
  Forall (fun c => 1 <= len c <= chunk_size) chunks.
Proof.
  intros Hsz Hov. rewrite chunk_text_cases by done. intros [= <-].
  unfold chunk_text_spec.
  destruct (String.eqb_spec text "") as [->|Hne]; [constructor|].
  destruct (Z.leb_spec (len text) chunk_size).
  - repeat constructor; [|done].
    unfold len in *. destruct text; [done|cbn [String.length] in *; lia].
  - apply Forall_fmap, Forall_forall. intros s Hs.
    apply window_starts_elem in Hs as [[k ->] Hlt];
      [|lia|apply len_nonneg].
    apply window_length; [lia|nia].
Qed.

Lemma chunk_text_chunk_sizes_witness :
  Forall (fun c => 1 <= len c <= 4) ["ABCD"; "DEFG"; "GHIJ"; "J"].
Proof.
  apply (chunk_text_chunk_sizes "ABCDEFGHIJ" 4 1); [lia|lia|reflexivity].
Defined.

(** X2.  A text longer than [chunk_size] is cut into
    [ceil(len(text) / (chunk_size - chunk_overlap))] chunks. *)
Theorem chunk_text_count text chunk_size chunk_overlap chunks :
  0 < chunk_size -> 0 <= chunk_overlap < chunk_size ->
  chunk_size < len text ->
  chunk_text text chunk_size chunk_overlap = Some chunks ->
  Z.of_nat (length chunks)
  = (len text + (chunk_size - chunk_overlap) - 1)
    / (chunk_size - chunk_overlap).
Proof.
  intros Hsz Hov Hlong. rewrite chunk_text_cases by done. intros [= <-].
  unfold chunk_text_spec.
  destruct (String.eqb_spec text "") as [->|Hne];
    [unfold len in Hlong; simpl in Hlong; lia|].
  destruct (Z.leb_spec (len text) chunk_size); [lia|].
  unfold window_starts. rewrite !length_fmap, length_seq.
  rewrite Z2Nat.id; [done|]. apply Z.div_pos; lia.
Qed.

Lemma chunk_text_count_witness :
  Z.of_nat (length ["ABCD"; "DEFG"; "GHIJ"; "J"])
  = (len "ABCDEFGHIJ" + (4 - 1) - 1) / (4 - 1).
Proof.
  apply (chunk_text_count "ABCDEFGHIJ" 4 1);
    [lia | lia | vm_compute; reflexivity | reflexivity].
Defined.

(** X3.  Nothing is lost: under a valid configuration every character of
    the text is in a chunk.  Character [p] of the text is character [off]
    of chunk number [k], where [p = off + k * (chunk_size - chunk_overlap)]. *)
Theorem chunk_text_covers text chunk_size chunk_overlap chunks (p : nat) :
  0 < chunk_size -> 0 <= chunk_overlap < chunk_size ->
  chunk_text text chunk_size chunk_overlap = Some chunks ->
  (p < String.length text)%nat ->
  exists (k off : nat) c,
    chunks !! k = Some c /\
    Z.of_nat p = Z.of_nat off + Z.of_nat k * (chunk_size - chunk_overlap) /\
    String.get off c = String.get p text.
Proof.
  intros Hsz Hov. rewrite chunk_text_cases by done. intros [= <-] Hp.
  unfold chunk_text_spec.
  destruct (String.eqb_spec text "") as [->|Hne]; [simpl in Hp; lia|].
  destruct (Z.leb_spec (len text) chunk_size) as [|Hlong].
  - exists 0%nat, p, text. split; [done|]. split; [lia|done].
  - set (step := chunk_size - chunk_overlap).
    assert (0 < step) as Hstep by (unfold step; lia).
    set (q := Z.of_nat p / step).
    assert (0 <= q) as Hq by (apply Z.div_pos; lia).
    assert (q * step <= Z.of_nat p < q * step + step) as Hqp.
    { pose proof (Z.mul_div_le (Z.of_nat p) step Hstep).
      pose proof (Z.mul_succ_div_gt (Z.of_nat p) step Hstep).
      unfold q. lia. }
    assert (Z.of_nat (Z.to_nat q) * step < len text) as Hin
      by (unfold len; lia).
    exists (Z.to_nat q), (Z.to_nat (Z.of_nat p - q * step)),
           (window text chunk_size (Z.of_nat (Z.to_nat q) * step)).
    split; [|split].
    + unfold window_starts. rewrite !list_lookup_fmap, lookup_seq_lt; [done|].
      apply starts_count; [done|apply len_nonneg|done].
    + lia.
    + rewrite window_get; [f_equal; lia|lia|unfold len; lia].
Qed.

Lemma chunk_text_covers_witness :
  exists (k off : nat) c,
    ["ABCD"; "DEFG"; "GHIJ"; "J"] !! k = Some c /\
    Z.of_nat 7 = Z.of_nat off + Z.of_nat k * (4 - 1) /\
    String.get off c = String.get 7 "ABCDEFGHIJ".
Proof.
  apply (chunk_text_covers "ABCDEFGHIJ" 4 1);
    [lia | lia | reflexivity | simpl; lia].
Defined.

Section Reassembly.

Lemma append_empty_r (s : string) : (s +:+ "")%string = s.
Proof.
  induction s as [|c s IH]; [done|].
  change (String c (s +:+ "") = String c s). by f_equal.
Qed.

Lemma substring_none s (n : nat) : substring n 0 s = "".
Proof. revert n. induction s as [|c s IH]; intros [|n]; simpl; done. Qed.

Lemma join_empty_cons x parts : join "" (x :: parts) = (x +:+ join "" parts)%string.
Proof.
  destruct parts as [|y parts]; [symmetry; apply append_empty_r|done].
Qed.

(** With no overlap, the windows from position [k] on spell the rest of
    the text. *)
Lemma windows_spell_suffix text chunk_size :
  0 < chunk_size ->
  forall m k : nat,
    (k + m = Z.to_nat ((len text + chunk_size - 1) / chunk_size))%nat ->
    join "" (window text chunk_size <$>
               ((fun i => Z.of_nat i * chunk_size) <$> seq k m))
    = substring (Z.to_nat (Z.of_nat k * chunk_size))
                (String.length text - Z.to_nat (Z.of_nat k * chunk_size))
                text.
Proof.
  intros Hsz. pose proof (len_nonneg text) as Hlen.
  induction m as [|m IH]; intros k Hk.
  - assert (~ Z.of_nat k * chunk_size < len text) as Hge
      by (rewrite starts_count; lia).
    unfold len in Hge.
    replace (String.length text - _)%nat with 0%nat by lia.
    by rewrite substring_none.
  - assert (Z.of_nat k * chunk_size < len text) as Hlt
      by (apply starts_count; lia).
    cbn [seq fmap list_fmap]. rewrite join_empty_cons.
    change (list_fmap _ _ (window text chunk_size)
              (list_fmap _ _ (fun i => Z.of_nat i * chunk_size) (seq (S k) m)))
      with (window text chunk_size <$>
              ((fun i => Z.of_nat i * chunk_size) <$> seq (S k) m)).
    rewrite IH by lia. unfold window, len in *.
    set (a := Z.to_nat (Z.of_nat k * chunk_size)).
    set (w := Z.to_nat (Z.min (Z.of_nat k * chunk_size + chunk_size)
                              (Z.of_nat (String.length text))
                        - Z.of_nat k * chunk_size)).
    destruct (Z.le_gt_cases (Z.of_nat (S k) * chunk_size)
                            (Z.of_nat (String.length text))) as [Hfull|Hlast].
    + replace (Z.to_nat (Z.of_nat (S k) * chunk_size)) with (a + w)%nat
        by (unfold a, w; lia).
      rewrite substring_split. f_equal. unfold a, w. lia.
    + replace (String.length text - _)%nat with 0%nat by lia.
      rewrite substring_none, append_empty_r. f_equal. unfold a, w. lia.
Qed.

End Reassembly.

(** X4.  Without overlap the chunks are a partition of the text: joined
    end to end they give the text back. *)
Theorem chunk_text_reassembles text chunk_size chunks :
  0 < chunk_size ->
  chunk_text text chunk_size 0 = Some chunks ->
  join "" chunks = text.
Proof.
  intros Hsz. rewrite chunk_text_cases by lia. intros [= <-].
  unfold chunk_text_spec.
  destruct (String.eqb_spec text "") as [->|Hne]; [done|].
  destruct (Z.leb_spec (len text) chunk_size) as [|Hlong]; [done|].
  rewrite Z.sub_0_r. unfold window_starts.
  rewrite (windows_spell_suffix text chunk_size Hsz _ 0%nat eq_refl).
  simpl. rewrite Nat.sub_0_r. apply substring_all.
Qed.

Lemma chunk_text_reassembles_witness :
  join "" ["ABCD"; "EFGH"; "IJ"] = "ABCDEFGHIJ".
Proof. apply (chunk_text_reassembles "ABCDEFGHIJ" 4); [lia|reflexivity]. Defined.

(** X5.  The loop has no guard: when [chunk_overlap >= chunk_size] and the
    text is longer than [chunk_size], [chunk_text] never returns, however
    many iterations it is given. *)
Theorem chunk_text_overlap_too_large text chunk_size chunk_overlap :
  0 < chunk_size -> chunk_size <= chunk_overlap -> chunk_size < len text ->
  forall fuel : nat,
    chunk_text_fuel fuel text chunk_size chunk_overlap = None.
Proof. intros Hsz Hov Hlong fuel. by apply chunk_text_no_progress. Qed.

Lemma chunk_text_overlap_too_large_witness :
  chunk_text_fuel 1000 "ABCDEFGHIJ" 4 4 = None.
Proof.
  apply (chunk_text_overlap_too_large "ABCDEFGHIJ" 4 4);
    [lia | lia | vm_compute; reflexivity].
Defined.

(** X6.  Consecutive chunks overlap as configured: where chunk [k+1]
    begins inside chunk [k], its character [j] is character
    [chunk_size - chunk_overlap + j] of chunk [k]. *)
Theorem chunk_text_overlap_shared text chunk_size chunk_overlap chunks
    (k j : nat) c1 c2 :
  0 < chunk_size -> 0 <= chunk_overlap < chunk_size ->
  chunk_size < len text ->
  chunk_text text chunk_size chunk_overlap = Some chunks ->
  chunks !! k = Some c1 -> chunks !! S k = Some c2 ->
  Z.of_nat j < chunk_overlap ->
  Z.of_nat (S k) * (chunk_size - chunk_overlap) + Z.of_nat j < len text ->
  String.get j c2
  = String.get (Z.to_nat (chunk_size - chunk_overlap) + j) c1.
Proof.
  intros Hsz Hov Hlong. rewrite chunk_text_cases by done. intros [= <-].
  unfold chunk_text_spec.
  destruct (String.eqb_spec text "") as [->|Hne];
    [unfold len in Hlong; simpl in Hlong; lia|].
  destruct (Z.leb_spec (len text) chunk_size); [lia|].
  unfold window_starts. rewrite !list_lookup_fmap.
  intros H1 H2 Hj Hin.
  destruct (seq 0 _ !! k) as [k'|] eqn:E1; [|done].
  destruct (seq 0 _ !! S k) as [k''|] eqn:E2; [|done].
  apply lookup_seq in E1 as [-> _]. apply lookup_seq in E2 as [-> _].
  simpl in H1, H2. injection H1 as <-. injection H2 as <-.
  rewrite !window_get by (unfold len in *; nia).
  f_equal. nia.
Qed.

Lemma chunk_text_overlap_shared_witness :
  String.get 0 "DEFG" = String.get (Z.to_nat (4 - 1) + 0) "ABCD".
Proof.
  apply (chunk_text_overlap_shared "ABCDEFGHIJ" 4 1
           ["ABCD"; "DEFG"; "GHIJ"; "J"] 0 0);
    try reflexivity; try lia; vm_compute; reflexivity.
Defined.

(** ** Vector store client: insertion and provisioning in detail *)

Section StoreMore.
Context {W : Type} `{Services W}.

(** The insertion loop on any server: it only inserts, it stops at the
    first failure, and what was inserted before stays. *)
Lemma add_documents_loop_trace self metadata :
  forall items ids (st : state W) r st',
    add_documents_loop self metadata items ids st = (r, st') ->
    exists tr,
      trace st' = trace st ++ tr /\
      Forall (is_insert_into (class_name self)) tr /\
      (length tr <= length items)%nat /\
      match r with
      | Ret ids' =>
          length ids' = (length ids + length items)%nat /\
          length tr = length items /\ raised tr = []
      | Raise e =>
          raised tr = [] \/
          (raised tr = [e] /\
           exists ev, last tr = Some ev /\ ev_raised ev = Some e)
      | Diverge => False
      end.
Proof.
  induction items as [|[i [text vec]] rest IH]; intros ids st r st' Hrun.
  - injection Hrun as <- <-. exists []. rewrite app_nil_r. simpl.
    repeat split; try done; lia.
  - cbn [add_documents_loop] in Hrun. unfold bind at 1 in Hrun.
    match type of Hrun with context [match ?m st with _ => _ end] =>
      assert (exists o, m st = (o, st) /\ o <> Diverge) as (o & Em & Ho) end.
    { destruct metadata as [[|m0 md]|]; try by eexists.
      unfold py_getitem.
      match goal with |- context [match ?x with Some _ => _ | None => _ end] =>
        destruct x end; by eexists. }
    rewrite Em in Hrun. destruct o as [meta|e|]; [| |done].
    + unfold bind at 1, perform in Hrun.
      destruct (data_insert _ _ _ _) as [[e|uuid] w].
      * injection Hrun as <- <-. eexists [_]. split; [done|].
        split; [repeat constructor; by eexists _, _|].
        split; [simpl; lia|]. right. split; [done|]. by eexists.
      * apply IH in Hrun as (tr & Htr & Hall & Hlen & Hr).
        eexists (_ :: tr). split; [rewrite Htr; simpl; by rewrite <- app_assoc|].
        split; [constructor; [by eexists _, _|done]|].
        split; [simpl; lia|].
        destruct r as [ids'|e|]; [| |done].
        -- destruct Hr as (Hi & Ht & Hn). rewrite length_app in Hi. simpl in *.
           repeat split; [lia|lia|done].
        -- destruct Hr as [Hn|(Hn & ev & Hl & He)]; [by left|right].
           split; [done|]. exists ev. split; [|done].
           destruct tr; [done|]. by rewrite last_cons_cons.
    + injection Hrun as <- <-. exists []. rewrite app_nil_r.
      repeat split; try done; [simpl; lia|by left].
Qed.

(** The loop when every item has its metadata entry and the server accepts
    every insertion. *)
Lemma add_documents_loop_full self (md : list (gmap string pyval)) :
  insert_ok W ->
  forall (l : list (string * vector)) (k : nat) ids (st : state W),
    (k + length l <= length md)%nat ->
    exists ids' st',
      add_documents_loop self (Some md)
        (zip (Z.of_nat <$> seq k (length l)) l) ids st
      = (Ret (ids ++ ids'), st') /\
      length ids' = length l /\
      trace st' = trace st ++
        zip_with (insert_event (class_name self))
                 (zip (Z.of_nat <$> seq k (length l)) l) (drop k md).
Proof.
  intros Hins. induction l as [|[text vec] l IH]; intros k ids st Hk.
  - exists [], st. simpl. by rewrite !app_nil_r.
  - simpl in Hk. simpl.
    destruct md as [|m0 md'] eqn:Emd; [simpl in Hk; lia|]. rewrite <- Emd in *.
    unfold bind at 1. rewrite py_getitem_nat.
    destruct (md !! k) as [meta|] eqn:Ek;
      [|apply lookup_ge_None in Ek; lia].
    rewrite (drop_S _ _ _ Ek). simpl. unfold bind at 1, perform.
    destruct (Hins (class_name self)
                {| content := text;
                   source := default (PyStr "unknown") (meta !! "source");
                   chunk_index :=
                     default (PyInt (Z.of_nat k)) (meta !! "chunk_index") |}
                vec (world st)) as (uuid & w' & ->).
    destruct (IH (S k) (ids ++ [uuid])
                (State w' (trace st ++
                   [insert_event (class_name self)
                      (Z.of_nat k, (text, vec)) meta])))
      as (ids' & st' & Hrun & Hlen & Htr); [lia|].
    exists (uuid :: ids'), st'. rewrite <- app_assoc in Hrun.
    split; [exact Hrun|]. split; [simpl; lia|].
    rewrite Htr. simpl. by rewrite <- app_assoc.
Qed.

(** The loop without metadata ([None] or the empty list). *)
Lemma add_documents_loop_defaults self metadata :
  insert_ok W -> metadata = None \/ metadata = Some [] ->
  forall (items : list (Z * (string * vector))) ids (st : state W),
    exists ids' st',
      add_documents_loop self metadata items ids st
      = (Ret (ids ++ ids'), st') /\
      length ids' = length items /\
      trace st' = trace st ++
        ((fun item => insert_event (class_name self) item ∅) <$> items).
Proof.
  intros Hins Hmd. induction items as [|[i [text vec]] rest IH]; intros ids st.
  - exists [], st. simpl. by rewrite !app_nil_r.
  - simpl. unfold bind at 1.
    assert ((match metadata with
             | Some ((_ :: _) as md) => py_getitem md i
             | _ => ret ∅
             end) st = (Ret ∅, st)) as -> by (by destruct Hmd as [->| ->]).
    unfold bind at 1, perform. rewrite !lookup_empty. simpl.
    destruct (Hins (class_name self)
                {| content := text; source := PyStr "unknown";
                   chunk_index := PyInt i |} vec (world st))
      as (uuid & w' & ->).
    destruct (IH (ids ++ [uuid])
                (State w' (trace st ++
                   [insert_event (class_name self) (i, (text, vec)) ∅])))
      as (ids' & st' & Hrun & Hlen & Htr).
    exists (uuid :: ids'), st'. rewrite <- app_assoc in Hrun.
    split; [exact Hrun|]. split; [simpl; lia|].
    rewrite Htr. simpl. by rewrite <- app_assoc.
Qed.

Lemma total_wait_app s1 s2 :
  total_wait (s1 ++ s2) = total_wait s1 + total_wait s2.
Proof.
  induction s1 as [|[|w] s1 IH]; simpl; rewrite ?IH; lia.
Qed.

Lemma total_wait_failed (n : nat) : forall first,
  0 <= first ->
  total_wait (failed_attempts first n) = 2 ^ first * (2 ^ Z.of_nat n - 1).
Proof.
  induction n as [|n IH]; intros first Hf.
  - simpl. lia.
  - rewrite failed_attempts_S. cbn [app total_wait].
    rewrite IH by lia.
    rewrite Nat2Z.inj_succ, !Z.pow_succ_r, Z.pow_add_r by lia.
    change (2 ^ 1) with 2. lia.
Qed.

End StoreMore.

(** X7.  [add_documents] is not transactional, on any server: it makes
    insert calls to its own collection and no other call; it stops at the
    first call that fails and raises that call's exception, leaving the
    earlier insertions in place; when it returns, it has made exactly one
    successful insertion per text and returns as many ids. *)
Theorem add_documents_not_transactional {W : Type} `{Services W}
    self (texts : list string) (embeddings : list vector) metadata
    (st : state W) :
  let run := add_documents self texts embeddings metadata st in
  exists tr,
    trace (snd run) = trace st ++ tr /\
    Forall (is_insert_into (class_name self)) tr /\
    (length tr <= length texts)%nat /\
    match fst run with
    | Ret ids =>
        length ids = length texts /\ length tr = length texts /\
        raised tr = []
    | Raise e =>
        raised tr = [] \/
        (raised tr = [e] /\
         exists ev, last tr = Some ev /\ ev_raised ev = Some e)
    | Diverge => False
    end.
Proof.
  intros run. subst run. unfold add_documents.
  destruct (Nat.eqb_spec (length texts) (length embeddings)) as [Hl|Hl]; simpl.
  - destruct (add_documents_loop self metadata
                (enumerate (zip texts embeddings)) [] st) as [r st'] eqn:Hrun.
    apply add_documents_loop_trace in Hrun as (tr & Htr & Hall & Hlen & Hr).
    assert (length (enumerate (zip texts embeddings)) = length texts) as Hn.
    { unfold enumerate, py_range.
      rewrite length_zip, length_fmap, length_seq, Nat2Z.id, length_zip. lia. }
    rewrite Hn in *. exists tr. simpl.
    split; [done|]. split; [done|]. split; [done|].
    by destruct r.
  - exists []. rewrite app_nil_r.
    split; [done|]. split; [done|]. split; [simpl; lia|]. by left.
Qed.

(** X8.  Without metadata ([None], or an empty list, which the code treats
    the same), on a server that accepts insertions, [add_documents] stores
    every text with source ["unknown"] and its position as chunk index, in
    input order, and returns one id per text. *)
Theorem add_documents_default_metadata {W : Type} `{Services W}
    self (texts : list string) (embeddings : list vector) metadata
    (st : state W) :
  insert_ok W ->
  length texts = length embeddings ->
  metadata = None \/ metadata = Some [] ->
  exists ids st',
    add_documents self texts embeddings metadata st = (Ret ids, st') /\
    length ids = length texts /\
    trace st' = trace st ++
      ((fun item : Z * (string * vector) =>
          Event (CInsert (class_name self)
                   {| content := fst (snd item);
                      source := PyStr "unknown";
                      chunk_index := PyInt (fst item) |}
                   (snd (snd item))) None)
         <$> enumerate (zip texts embeddings)).
Proof.
  intros Hins Hlen Hmd. unfold add_documents.
  destruct (Nat.eqb_spec (length texts) (length embeddings)); [|done].
  simpl.
  destruct (add_documents_loop_defaults self metadata Hins Hmd
              (enumerate (zip texts embeddings)) [] st)
    as (ids & st' & Hrun & Hn & Htr).
  exists ids, st'. split; [done|]. split.
  - rewrite Hn. unfold enumerate, py_range.
    rewrite length_zip, length_fmap, length_seq, Nat2Z.id, length_zip. lia.
  - by rewrite Htr.
Qed.

Lemma add_documents_default_metadata_witness :
  exists ids st',
    add_documents sim_store ["a"; "b"] [[]; []] (Some []) sim_start
    = (Ret ids, st') /\
    length ids = length ["a"; "b"] /\
    trace st' = trace sim_start ++
      ((fun item : Z * (string * vector) =>
          Event (CInsert (class_name sim_store)
                   {| content := fst (snd item);
                      source := PyStr "unknown";
                      chunk_index := PyInt (fst item) |}
                   (snd (snd item))) None)
         <$> enumerate (zip ["a"; "b"] [[]; []])).
Proof.
  apply add_documents_default_metadata;
    [exact sim_insert_ok | reflexivity | by right].
Defined.

(** X9.  With a metadata entry for every text, on a server that accepts
    insertions, [add_documents] stores text [i] with the values of entry
    [i] (defaults filling the keys an entry lacks), in input order, and
    returns one id per text; entries beyond the last text are ignored. *)
Theorem add_documents_with_metadata {W : Type} `{Services W}
    self (texts : list string) (embeddings : list vector)
    (metadata : list (gmap string pyval)) (st : state W) :
  insert_ok W ->
  length texts = length embeddings ->
  (length texts <= length metadata)%nat ->
  exists ids st',
    add_documents self texts embeddings (Some metadata) st = (Ret ids, st') /\
    length ids = length texts /\
    trace st' = trace st ++
      zip_with (insert_event (class_name self))
               (enumerate (zip texts embeddings)) metadata.
Proof.
  intros Hins Hlen Hmd. unfold add_documents.
  destruct (Nat.eqb_spec (length texts) (length embeddings)); [|done].
  simpl. unfold enumerate, py_range. rewrite Nat2Z.id.
  destruct (add_documents_loop_full self metadata Hins
              (zip texts embeddings) 0 [] st)
    as (ids & st' & Hrun & Hn & Htr).
  { rewrite length_zip. lia. }
  exists ids, st'. rewrite drop_0 in Htr. split; [done|]. split; [|done].
  rewrite Hn, length_zip. lia.
Qed.

Lemma add_documents_with_metadata_witness :
  exists ids st',
    add_documents sim_store ["a"] [[]]
                  (Some [{[ "source" := PyStr "s" ]}; ∅]) sim_start
    = (Ret ids, st') /\
    length ids = length ["a"] /\
    trace st' = trace sim_start ++
      zip_with (insert_event (class_name sim_store))
               (enumerate (zip ["a"] [[]]))
               [{[ "source" := PyStr "s" ]}; ∅].
Proof.
  apply add_documents_with_metadata;
    [exact sim_insert_ok | reflexivity | simpl; lia].
Defined.

(** X10.  Backoff adds up.  In a provisioning run the failed attempts are
    those of its log: each is tried, raises once, and is waited after.  If
    [errs] are the exceptions they raised, the run has slept
    [2^(length errs) - 1] seconds in all; there are fewer than
    [max_retries] of them when the run succeeds and exactly [max_retries]
    when it gives up (31 seconds for the default of 5). *)
Theorem create_collection_with_retry_total_wait {W : Type} `{Services W}
    self (st : state W) :
  let run := _create_collection_with_retry self st in
  exists tr errs,
    trace (snd run) = trace st ++ tr /\
    raised tr = errs /\
    retry_log tr
    = failed_log 0 errs ++ match fst run with Ret _ => [Tried] | _ => [] end /\
    total_wait (retry_steps tr) = 2 ^ Z.of_nat (length errs) - 1 /\
    match fst run with
    | Ret _ => (length errs < Z.to_nat (max_retries self))%nat
    | Raise _ => length errs = Z.to_nat (max_retries self)
    | Diverge => False
    end.
Proof.
  intros run. subst run. unfold _create_collection_with_retry, bind.
  rewrite py_range_from_0.
  destruct (retry_loop self _ None st) as [r st'] eqn:Hrun.
  apply retry_loop_run in Hrun as (tr & errs & Htr & Herrs & Hr).
  exists tr, errs.
  destruct r as [[[]|le]| |]; simpl; [| |done..].
  - destruct Hr as (Hlen & Hs & Hlog).
    split; [done|]. split; [done|]. split; [done|]. split; [|done].
    rewrite Hs, total_wait_app, total_wait_failed by lia. simpl. lia.
  - destruct Hr as (Hlen & Hs & Hlog & _).
    split; [done|]. split; [done|]. split; [by rewrite app_nil_r|].
    split; [|done].
    rewrite Hs, total_wait_failed, Hlen by lia. simpl. lia.
Qed.

(** X11.  With [max_retries <= 0] the loop body never runs: construction
    fails at once with [ConnectionError], whose last error is [None],
    without a single request to the server. *)
Theorem create_collection_with_retry_no_attempts {W : Type} `{Services W}
    self (st : state W) :
  max_retries self <= 0 ->
  _create_collection_with_retry self st
  = (Raise (ConnectionError (max_retries self) None), st).
Proof.
  intros Hm. unfold _create_collection_with_retry, bind, py_range.
  by replace (Z.to_nat (max_retries self)) with 0%nat by lia.
Qed.

Lemma create_collection_with_retry_no_attempts_witness :
  _create_collection_with_retry
    {| class_name := "Document"; max_retries := 0 |} sim_start
  = (Raise (ConnectionError 0 None), sim_start).
Proof.
  apply (create_collection_with_retry_no_attempts
           {| class_name := "Document"; max_retries := 0 |}).
  simpl. lia.
Defined.

(** X12.  Where [search] fails.  It passes on the exception of the
    server's [near_vector].  When the server returns objects, it raises
    exactly when one of them is incomplete, and then for the first such
    object in the list: [KeyError] for the first of ["content"],
    ["source"], ["chunk_index"] that the object's properties lack, else
    [TypeError] for a distance that is [None]; the results formatted before
    it are not returned. *)
Theorem search_failures {W : Type} `{Services W}
    self (query_embedding : vector) (top_k : Z) (st : state W) :
  let run := search self query_embedding top_k st in
  match fst (query_near_vector (class_name self) query_embedding top_k
               (world st)) with
  | inl e => fst run = Raise e
  | inr objs =>
      match fst run with
      | Ret results =>
          Forall (fun obj => missing_in obj = None) objs /\
          length results = length objs
      | Raise e =>
          exists before obj rest,
            objs = before ++ obj :: rest /\
            Forall (fun o => missing_in o = None) before /\
            missing_in obj = Some e
      | Diverge => False
      end
  end.
Proof.
  intros run. subst run. rewrite search_run.
  destruct (query_near_vector _ _ _ _) as [[e|objs] w]; [done|].
  cbn [fst].
  match goal with |- context [format_results objs [] ?s] =>
    pose proof (format_results_run objs [] s) as [_ Hr];
    destruct (fst (format_results objs [] s)) as [out|e|] end; [|done..].
  destruct Hr as (rs & -> & Hall). simpl. split.
  - clear -Hall. induction Hall as [|o r objs rs Ho _ IH]; constructor; [|done].
    unfold shown_as in Ho. destruct Ho as (Hc & Hs & Hi & d & Hd & _).
    unfold missing_in. rewrite Hc, Hs, Hi, Hd. by repeat case_decide.
  - symmetry. by eapply Forall2_length.
Qed.

(** A server answer with an object that lost its source: the first,
    complete object is not returned either. *)
Example search_failures_demo :
  fst (search (H := incomplete_services) sim_store [] 5 sim_start)
  = Raise (KeyError "source").
Proof. vm_compute. reflexivity. Qed.

(** ** Embedding and ingestion in detail *)

Section IngestMore.
Context {W : Type} `{Services W}.

(** [embed_batch] on any model: one call per text, in order, up to the
    first failure. *)
Lemma embed_batch_trace :
  forall texts (st : state W) r st',
    embed_batch texts st = (r, st') ->
    exists tr,
      trace st' = trace st ++ tr /\
      Forall is_embed_call tr /\
      embedded_texts tr `prefix_of` texts /\
      match r with
      | Ret vs =>
          length vs = length texts /\ embedded_texts tr = texts /\
          raised tr = []
      | Raise e => raised tr = [e]
      | Diverge => False
      end.
Proof.
  induction texts as [|text rest IH]; intros st r st' Hrun.
  - injection Hrun as <- <-. exists []. rewrite app_nil_r.
    split; [done|]. split; [done|]. split; [by exists []|done].
  - cbn [embed_batch] in Hrun. unfold bind at 1, embed, perform in Hrun.
    destruct (embed_content text (world st)) as [[e|v] w].
    + injection Hrun as <- <-. eexists [_]. split; [done|].
      split; [repeat constructor; by eexists|].
      split; [by exists rest|done].
    + unfold bind at 1 in Hrun.
      destruct (embed_batch rest _) as [r1 st1] eqn:E1.
      apply IH in E1 as (tr & Htr & Hall & [k Hk] & Hr).
      exists (Event (CEmbedContent text) None :: tr).
      assert (trace st1 = trace st ++ Event (CEmbedContent text) None :: tr)
        as Htr' by (rewrite Htr; simpl; by rewrite <- app_assoc).
      destruct r1 as [vs|e|]; [| |done]; injection Hrun as <- <-.
      * destruct Hr as (Hl & He & Hn).
        split; [done|]. split; [constructor; [by eexists|done]|].
        split; [exists k; simpl; by rewrite Hk|].
        split; [simpl; lia|]. split; [simpl; by rewrite He|done].
      * split; [done|]. split; [constructor; [by eexists|done]|].
        split; [exists k; simpl; by rewrite Hk|done].
Qed.

(** On a model that answers, every text is embedded. *)
Lemma embed_batch_ok :
  embed_ok W ->
  forall texts (st : state W),
    exists vs st',
      embed_batch texts st = (Ret vs, st') /\
      length vs = length texts /\
      embedded_texts (trace st') = embedded_texts (trace st) ++ texts /\
      inserted_props (trace st') = inserted_props (trace st).
Proof.
  intros Hok. induction texts as [|text rest IH]; intros st.
  - exists [], st. by rewrite app_nil_r.
  - cbn [embed_batch]. unfold bind at 1, embed, perform.
    destruct (Hok text (world st)) as (v & w & ->).
    destruct (IH (State w (trace st ++ [Event (CEmbedContent text) None])))
      as (vs & st' & Hrun & Hl & He & Hi).
    exists (v :: vs), st'. unfold bind. rewrite Hrun.
    split; [done|]. split; [simpl; lia|].
    unfold embedded_texts, inserted_props in *. cbn [trace] in *.
    rewrite omap_app in He. rewrite omap_app in Hi. simpl in He, Hi.
    rewrite He, Hi, app_nil_r. split; [by rewrite <- app_assoc|done].
Qed.

Lemma chunk_metadata_lookup file_path (k n : nat) :
  (k < n)%nat ->
  (chunk_metadata file_path <$> py_range (Z.of_nat n)) !! k
  = Some (chunk_metadata file_path (Z.of_nat k)).
Proof.
  intros Hk. unfold py_range.
  by rewrite !list_lookup_fmap, Nat2Z.id, lookup_seq_lt.
Qed.

(** The insertion loop of [ingest_document]: chunk [i] is stored with the
    document's path and its own position. *)
Lemma ingest_insert_loop self file_path (n : nat) :
  insert_ok W ->
  forall chunks (embeddings : list vector) (k : nat) ids (st : state W),
    length embeddings = length chunks ->
    (k + length chunks <= n)%nat ->
    exists ids' st',
      add_documents_loop self
        (Some (chunk_metadata file_path <$> py_range (Z.of_nat n)))
        (zip (Z.of_nat <$> seq k (length (zip chunks embeddings)))
             (zip chunks embeddings)) ids st
      = (Ret ids', st') /\
      inserted_props (trace st')
      = inserted_props (trace st)
        ++ chunk_records file_path (Z.of_nat k) chunks.
Proof.
  intros Hins. induction chunks as [|chunk chunks IH];
    intros [|vec embeddings] k ids st Hl Hk; try done.
  - exists ids, st. by rewrite app_nil_r.
  - simpl in Hk. cbn [zip zip_with length seq fmap list_fmap add_documents_loop].
    pose proof (chunk_metadata_lookup file_path k n ltac:(lia)) as Hmeta.
    destruct (chunk_metadata file_path <$> py_range (Z.of_nat n))
      as [|m0 md'] eqn:Emd; [done|]. rewrite <- Emd in *.
    unfold bind at 1. rewrite py_getitem_nat, Hmeta.
    unfold bind at 1, perform.
    destruct (Hins (class_name self)
                {| content := chunk;
                   source := default (PyStr "unknown")
                               (chunk_metadata file_path (Z.of_nat k) !! "source");
                   chunk_index :=
                     default (PyInt (Z.of_nat k))
                       (chunk_metadata file_path (Z.of_nat k) !! "chunk_index") |}
                vec (world st)) as (uuid & w' & ->).
    match goal with |- context [add_documents_loop _ _ _ ?i ?s] =>
      destruct (IH embeddings (S k) i s) as (ids' & st' & Hrun & Hp) end;
      [simpl in Hl; lia | lia |].
    exists ids', st'. split; [exact Hrun|].
    rewrite Hp. unfold inserted_props. cbn [trace].
    rewrite omap_app, <- app_assoc. f_equal. simpl.
    unfold chunk_metadata.
    rewrite lookup_insert_eq, lookup_insert_ne, lookup_singleton_eq by done.
    simpl. do 2 f_equal. lia.
Qed.

End IngestMore.

Section RunSteps.
Context {W : Type} `{Services W}.

Lemma bind_run {A B} (m : M W A) (k : A -> M W B) (st st1 : state W) a :
  m st = (Ret a, st1) -> bind m k st = k a st1.
Proof. intros E. unfold bind. by rewrite E. Qed.

Lemma bind_raise {A B} (m : M W A) (k : A -> M W B) (st st1 : state W) e :
  m st = (Raise e, st1) -> bind m k st = (Raise e, st1).
Proof. intros E. unfold bind. by rewrite E. Qed.

Lemma perform_ok {A} c (f : W -> (exn + A) * W) (st : state W) a w :
  f (world st) = (inr a, w) ->
  perform c f st = (Ret a, State w (trace st ++ [Event c None])).
Proof. intros E. unfold perform. by rewrite E. Qed.

(** [add_documents] on any server, as a run. *)
Lemma add_documents_trace self texts embeddings metadata (st : state W) r st' :
  add_documents self texts embeddings metadata st = (r, st') ->
  r <> Diverge /\
  exists tr,
    trace st' = trace st ++ tr /\
    Forall (is_insert_into (class_name self)) tr.
Proof.
  unfold add_documents. destruct (negb _).
  - intros [= <- <-]. split; [done|]. exists []. by rewrite app_nil_r.
  - intros Hrun.
    apply add_documents_loop_trace in Hrun as (tr & Htr & Hall & _ & Hr).
    split; [by destruct r|]. by exists tr.
Qed.

End RunSteps.

(** X13.  [embed_batch] keeps order and length, on any model: it embeds
    the texts one by one in input order and stops at the first failure,
    raising it; when it returns, every text was embedded and there is one
    vector per text. *)
Theorem embed_batch_in_order {W : Type} `{Services W}
    (texts : list string) (st : state W) :
  let run := embed_batch texts st in
  exists tr,
    trace (snd run) = trace st ++ tr /\
    Forall is_embed_call tr /\
    embedded_texts tr `prefix_of` texts /\
    match fst run with
    | Ret vs =>
        length vs = length texts /\ embedded_texts tr = texts /\
        raised tr = []
    | Raise e => raised tr = [e]
    | Diverge => False
    end.
Proof.
  intros run. subst run.
  destruct (embed_batch texts st) as [r st'] eqn:Hrun.
  by apply embed_batch_trace in Hrun.
Qed.

(** X14.  Ingestion end to end.  With a valid configuration, a model that
    answers and a server that accepts insertions, a document that loads is
    cut by [chunk_text]; every chunk is embedded, in order; chunk [i] is
    stored with the document's path as source and [i] as chunk index; the
    number of chunks is returned. *)
Theorem ingest_document_stores_chunks {W : Type} `{Services W}
    self file_path (st : state W) text w :
  0 < chunk_size self -> 0 <= chunk_overlap self < chunk_size self ->
  embed_ok W -> insert_ok W ->
  load_document file_path (world st) = (inr text, w) ->
  exists chunks st',
    chunk_text text (chunk_size self) (chunk_overlap self) = Some chunks /\
    ingest_document self file_path st = (Ret (Z.of_nat (length chunks)), st') /\
    embedded_texts (trace st') = embedded_texts (trace st) ++ chunks /\
    inserted_props (trace st')
    = inserted_props (trace st) ++ chunk_records file_path 0 chunks.
Proof.
  intros Hsz Hov Hemb Hins Hload.
  destruct (chunk_text_total text _ _ Hsz Hov) as [chunks Hchunks].
  set (st1 := State w (trace st ++ [Event (CLoadDocument file_path) None])).
  destruct (embed_batch_ok Hemb chunks st1) as (vs & st2 & He & Hl & Het & Hei).
  destruct (ingest_insert_loop (vector_store self) file_path (length chunks)
              Hins chunks vs 0 [] st2 Hl ltac:(lia))
    as (ids & st3 & Hadd & Hp).
  assert (add_documents (vector_store self) chunks vs
            (Some (chunk_metadata file_path
                     <$> py_range (Z.of_nat (length chunks)))) st2
          = (Ret ids, st3)) as Hadd'.
  { unfold add_documents. rewrite Hl, Nat.eqb_refl. simpl.
    unfold enumerate, py_range at 2. rewrite Nat2Z.id. exact Hadd. }
  exists chunks, st3. split; [done|]. split; [|split].
  - unfold ingest_document.
    erewrite bind_run by (by apply perform_ok).
    rewrite Hchunks. erewrite bind_run by reflexivity.
    erewrite bind_run by exact He.
    cbv zeta. erewrite bind_run by exact Hadd'. done.
  - pose proof (add_documents_silent embed_view (vector_store self) chunks vs
                  (Some (chunk_metadata file_path
                           <$> py_range (Z.of_nat (length chunks))))
                  ltac:(done) st2) as [_ Hs].
    rewrite Hadd' in Hs. simpl in Hs. unfold embedded_texts.
    rewrite Hs. fold (embedded_texts (trace st2)). rewrite Het.
    unfold st1, embedded_texts. cbn [trace]. rewrite omap_app. simpl.
    by rewrite app_nil_r.
  - rewrite Hp, Hei. unfold st1, inserted_props. cbn [trace].
    rewrite omap_app. simpl. by rewrite app_nil_r.
Qed.

Lemma ingest_document_stores_chunks_witness :
  exists chunks st',
    chunk_text "ABCDEFGHIJ" (chunk_size sim_pipeline)
               (chunk_overlap sim_pipeline) = Some chunks /\
    ingest_document sim_pipeline "a.txt" sim_start
    = (Ret (Z.of_nat (length chunks)), st') /\
    embedded_texts (trace st') = embedded_texts (trace sim_start) ++ chunks /\
    inserted_props (trace st')
    = inserted_props (trace sim_start) ++ chunk_records "a.txt" 0 chunks.
Proof.
  apply (ingest_document_stores_chunks sim_pipeline "a.txt" sim_start
           "ABCDEFGHIJ" (world sim_start));
    [simpl; lia | simpl; lia | | exact sim_insert_ok | reflexivity].
  intros text w. by eexists _, _.
Defined.

(** X15.  An empty document is ingested as zero chunks: after the load,
    nothing is embedded and nothing is inserted, whatever the chunking
    configuration. *)
Theorem ingest_document_empty {W : Type} `{Services W}
    self file_path (st : state W) w :
  load_document file_path (world st) = (inr "", w) ->
  ingest_document self file_path st
  = (Ret 0, State w (trace st ++ [Event (CLoadDocument file_path) None])).
Proof.
  intros Hload. unfold ingest_document.
  erewrite bind_run by (by apply perform_ok). reflexivity.
Qed.

Lemma ingest_document_empty_witness :
  ingest_document sim_pipeline "empty.txt"
    (State (Sim [("empty.txt", "")] 0 true []) [])
  = (Ret 0, State (Sim [("empty.txt", "")] 0 true [])
              ([] ++ [Event (CLoadDocument "empty.txt") None])).
Proof.
  apply (ingest_document_empty sim_pipeline "empty.txt"
           (State (Sim [("empty.txt", "")] 0 true []) [])).
  reflexivity.
Defined.

(** X16.  The phases of [ingest_document], on any services: one load, then
    embedding calls only, then insert calls only.  An insert call is made
    only after the load and every embedding succeeded, so a document that
    fails to load or to embed leaves the collection untouched. *)
Theorem ingest_document_phases {W : Type} `{Services W}
    self file_path (st : state W) :
  let run := ingest_document self file_path st in
  exists loaded embeds inserts,
    trace (snd run)
    = trace st ++ Event (CLoadDocument file_path) loaded :: embeds ++ inserts /\
    Forall is_embed_call embeds /\
    Forall (is_insert_into (class_name (vector_store self))) inserts /\
    (inserts <> [] -> loaded = None /\ raised embeds = []).
Proof.
  intros run. subst run. unfold ingest_document, bind at 1, perform.
  destruct (load_document file_path (world st)) as [[e|text] w].
  { exists (Some e), [], []. by repeat split. }
  destruct (chunk_text text _ _) as [chunks|].
  2:{ exists None, [], []. by repeat split. }
  erewrite bind_run by reflexivity. unfold bind at 1.
  destruct (embed_batch chunks _) as [r1 st1] eqn:E1.
  apply embed_batch_trace in E1 as (tr1 & Htr1 & Hall1 & _ & Hr1).
  cbn [trace] in Htr1.
  destruct r1 as [vs|e|]; [| |done].
  - cbv zeta. unfold bind at 1.
    match goal with |- context [add_documents ?s ?t ?v ?m st1] =>
      destruct (add_documents s t v m st1) as [r2 st2] eqn:E2 end.
    apply add_documents_trace in E2 as (Hd & tr2 & Htr2 & Hall2).
    exists None, tr1, tr2. split.
    { destruct r2; [| |done]; simpl;
        rewrite Htr2, Htr1; by rewrite <- !app_assoc. }
    split; [done|]. split; [done|]. intros _. split; [done|].
    by destruct Hr1 as (_ & _ & ?).
  - exists None, tr1, []. simpl. rewrite Htr1, app_nil_r.
    rewrite <- app_assoc. by repeat split.
Qed.

(** ** Query workflow in detail *)

Section PromptFacts.

Lemma append_cons c (s t : string) :
  (String c s +:+ t)%string = String c (s +:+ t).
Proof. done. Qed.

Lemma append_assoc (s t u : string) :
  ((s +:+ t) +:+ u)%string = (s +:+ t +:+ u)%string.
Proof.
  induction s as [|c s IH]; [done|]. rewrite !append_cons. by f_equal.
Qed.

Lemma contains_refl s : contains s s.
Proof. exists "", "". by rewrite append_empty_r. Qed.

Lemma contains_prepend s t u : contains s t -> contains s (u +:+ t).
Proof.
  intros (b & a & ->). exists (u +:+ b)%string, a. by rewrite append_assoc.
Qed.

Lemma contains_append s t u : contains s t -> contains s (t +:+ u).
Proof.
  intros (b & a & ->). exists b, (a +:+ u)%string.
  by rewrite !append_assoc.
Qed.

Lemma contains_trans s t u : contains s t -> contains t u -> contains s u.
Proof.
  intros Hst (b & a & ->). by apply contains_prepend, contains_append.
Qed.

(** Every part is in the joined string. *)
Lemma contains_join sep part parts :
  part ∈ parts -> contains part (join sep parts).
Proof.
  induction parts as [|x [|y rest] IH]; intros Hin.
  - by apply elem_of_nil in Hin.
  - apply list_elem_of_singleton in Hin as ->. apply contains_refl.
  - apply elem_of_cons in Hin as [->|Hin].
    + change (join sep (x :: y :: rest))
        with (x +:+ sep +:+ join sep (y :: rest))%string.
      apply contains_append, contains_refl.
    + change (join sep (x :: y :: rest))
        with (x +:+ sep +:+ join sep (y :: rest))%string.
      by apply contains_prepend, contains_prepend, IH.
Qed.

Lemma prompt_has_question question context_text :
  contains question (build_prompt question context_text).
Proof.
  unfold build_prompt.
  do 3 apply contains_prepend. apply contains_append, contains_refl.
Qed.

Lemma prompt_has_context question context_text :
  contains context_text (build_prompt question context_text).
Proof.
  unfold build_prompt.
  apply contains_prepend, contains_append, contains_refl.
Qed.

Lemma format_chunk_has_content chunk :
  contains (py_str (sr_content chunk)) (format_chunk chunk).
Proof.
  unfold format_chunk. do 3 apply contains_prepend. apply contains_refl.
Qed.

Lemma format_chunk_has_source chunk :
  contains (py_str (sr_source chunk)) (format_chunk chunk).
Proof.
  unfold format_chunk. apply contains_prepend, contains_append, contains_refl.
Qed.

End PromptFacts.

(** X17.  A query that found something is grounded in it.  When
    [retrieve] returns a non-empty list, [query] sends exactly one prompt
    to the language model; the prompt holds the question and, for every
    retrieved passage, its content and its source; and what [query]
    returns is the model's answer to that prompt, unchanged. *)
Theorem query_prompt_grounded {W : Type} `{Services W}
    self question top_k (st st1 : state W) results :
  retrieve self question top_k st = (Ret results, st1) ->
  results <> [] ->
  exists prompt,
    generated_prompts (trace (snd (query self question top_k st)))
    = generated_prompts (trace st) ++ [prompt] /\
    contains question prompt /\
    Forall (fun r => contains (py_str (sr_content r)) prompt /\
                     contains (py_str (sr_source r)) prompt) results /\
    match fst (query self question top_k st) with
    | Ret answer =>
        fst (chat_completions_create (llm_model self) prompt (world st1))
        = inr answer
    | Raise e =>
        fst (chat_completions_create (llm_model self) prompt (world st1))
        = inl e
    | Diverge => False
    end.
Proof.
  intros Hr Hne.
  set (prompt := build_prompt question
                   (join context_separator (format_chunk <$> results))).
  exists prompt.
  assert (query self question top_k st
          = generate_answer self question results st1) as ->.
  { unfold query. erewrite bind_run by exact Hr. by destruct results. }
  pose proof (retrieve_silent self question top_k st) as [_ Hs].
  rewrite Hr in Hs. simpl in Hs.
  unfold generate_answer, perform. fold prompt.
  split; [|split; [apply prompt_has_question|split]].
  - unfold generated_prompts.
    destruct (chat_completions_create _ _ _) as [[e|a] w]; cbn [snd trace];
      rewrite omap_app, Hs; done.
  - apply Forall_forall. intros r Hin.
    assert (contains (format_chunk r) prompt) as Hc.
    { eapply contains_trans; [|apply prompt_has_context].
      apply contains_join, list_elem_of_fmap. by exists r. }
    split; (eapply contains_trans; [|exact Hc]);
      [apply format_chunk_has_content | apply format_chunk_has_source].
  - by destruct (chat_completions_create _ _ _) as [[e|a] w].
Qed.

Lemma query_prompt_grounded_witness :
  exists prompt,
    generated_prompts (trace (snd (query sim_pipeline "Where?" 5 sim_start)))
    = generated_prompts (trace sim_start) ++ [prompt] /\
    contains "Where?" prompt /\
    Forall (fun r => contains (py_str (sr_content r)) prompt /\
                     contains (py_str (sr_source r)) prompt)
           canned_results /\
    match fst (query sim_pipeline "Where?" 5 sim_start) with
    | Ret answer =>
        fst (chat_completions_create (llm_model sim_pipeline) prompt
               (world (snd (retrieve sim_pipeline "Where?" 5 sim_start))))
        = inr answer
    | Raise e =>
        fst (chat_completions_create (llm_model sim_pipeline) prompt
               (world (snd (retrieve sim_pipeline "Where?" 5 sim_start))))
        = inl e
    | Diverge => False
    end.
Proof.
  apply (query_prompt_grounded sim_pipeline "Where?" 5 sim_start
           (snd (retrieve sim_pipeline "Where?" 5 sim_start))
           canned_results);
    [vm_compute; reflexivity | discriminate].
Defined.

(** X18.  A failed retrieval ends the query: when [retrieve] raises,
    [query] raises the same exception from the same state and the language
    model is not called. *)
Theorem query_retrieval_failure {W : Type} `{Services W}
    self question top_k (st st' : state W) e :
  retrieve self question top_k st = (Raise e, st') ->
  query self question top_k st = (Raise e, st') /\
  generated_prompts (trace st') = generated_prompts (trace st).
Proof.
  intros Hr. split.
  - unfold query. by erewrite bind_raise by exact Hr.
  - destruct (retrieve_silent self question top_k st) as [_ Ht].
    by rewrite Hr in Ht.
Qed.

Lemma query_retrieval_failure_witness :
  query (H := offline_services) sim_pipeline "Where?" 5 offline_start
  = (Raise offline,
     State tt [Event (CEmbedContent "Where?") (Some offline)]) /\
  generated_prompts [Event (CEmbedContent "Where?") (Some offline)]
  = generated_prompts (trace offline_start).
Proof.
  apply (query_retrieval_failure (H := offline_services)
           sim_pipeline "Where?" 5 offline_start).
  reflexivity.
Defined.

(** ** Batches and construction *)

Section BatchFacts.
Context {W : Type} `{Services W}.

(** One turn of the loop of [ingest_multiple]. *)
Lemma ingest_loop_cons self path rest total (st : state W) :
  ingest_loop self (path :: rest) total st
  = match ingest_document self path st with
    | (Ret chunks, st1) => ingest_loop self rest (total + chunks) st1
    | (Raise _, st1) => ingest_loop self rest total st1
    | (Diverge, st1) => (Diverge, st1)
    end.
Proof.
  cbn [ingest_loop]. unfold bind, try_except, ret.
  by destruct (ingest_document self path st) as [[c|e|] st1].
Qed.

(** The loop over [paths1 ++ paths2] is the loop over [paths1] followed by
    the loop over [paths2], the total carried across. *)
Lemma ingest_loop_app self paths1 paths2 :
  forall total (st : state W),
    ingest_loop self (paths1 ++ paths2) total st
    = match ingest_loop self paths1 total st with
      | (Ret total1, st1) => ingest_loop self paths2 total1 st1
      | other => other
      end.
Proof.
  induction paths1 as [|path rest IH]; intros total st; [done|].
  rewrite <- app_comm_cons, !ingest_loop_cons.
  destruct (ingest_document self path st) as [[c|e|] st1]; [apply IH..|done].
Qed.

(** The running total only shifts the result. *)
Lemma ingest_loop_shift self paths :
  forall total total' (st : state W),
    ingest_loop self paths total' st
    = match ingest_loop self paths total st with
      | (Ret n, st1) => (Ret (n + (total' - total)), st1)
      | other => other
      end.
Proof.
  induction paths as [|path rest IH]; intros total total' st.
  - simpl. unfold ret. do 2 f_equal. lia.
  - rewrite !ingest_loop_cons.
    destruct (ingest_document self path st) as [[c|e|] st1]; [| |done].
    + rewrite (IH (total + c) (total' + c)).
      destruct (ingest_loop _ _ _ _) as [[n|e|] st2]; [|done..].
      do 2 f_equal. lia.
    + apply IH.
Qed.

End BatchFacts.

(** X19.  Batches compose: with a valid configuration, ingesting
    [paths1 ++ paths2] in one call returns the sum of what ingesting
    [paths1] and then [paths2] returns, and ends in the same state. *)
Theorem ingest_multiple_app {W : Type} `{Services W}
    self (paths1 paths2 : list string) (st : state W) :
  0 < chunk_size self -> 0 <= chunk_overlap self < chunk_size self ->
  exists n1 n2 st1 st2,
    ingest_multiple self paths1 st = (Ret n1, st1) /\
    ingest_multiple self paths2 st1 = (Ret n2, st2) /\
    ingest_multiple self (paths1 ++ paths2) st = (Ret (n1 + n2), st2).
Proof.
  intros Hsz Hov. unfold ingest_multiple.
  destruct (ingest_loop_run self Hsz Hov paths1 0 st) as (st1 & H1 & _).
  destruct (ingest_loop_run self Hsz Hov paths2 0 st1) as (st2 & H2 & _).
  eexists _, _, st1, st2. split; [exact H1|]. split; [exact H2|].
  rewrite ingest_loop_app, H1.
  rewrite (ingest_loop_shift self paths2 0), H2. do 2 f_equal. lia.
Qed.

Lemma ingest_multiple_app_witness :
  exists n1 n2 st1 st2,
    ingest_multiple sim_pipeline ["a.txt"] sim_start = (Ret n1, st1) /\
    ingest_multiple sim_pipeline ["missing.pdf"; "b.txt"] st1 = (Ret n2, st2) /\
    ingest_multiple sim_pipeline (["a.txt"] ++ ["missing.pdf"; "b.txt"])
                    sim_start = (Ret (n1 + n2), st2).
Proof. apply ingest_multiple_app; simpl; lia. Defined.

(** X20.  A pipeline that [RAGPipeline()] managed to construct carries the
    configured chunking (1000 characters, 200 of overlap), which is valid:
    its [ingest_multiple] returns for every list of paths, whatever the
    services do afterwards. *)
Theorem constructed_pipeline_ingests {W : Type} `{Services W}
    (st st' : state W) self :
  RAGPipeline_init st = (Ret self, st') ->
  chunk_size self = 1000 /\ chunk_overlap self = 200 /\
  max_retries (vector_store self) = 5 /\
  forall file_paths (st2 : state W),
    exists total st3,
      ingest_multiple self file_paths st2 = (Ret total, st3).
Proof.
  unfold RAGPipeline_init, bind at 1.
  destruct (WeaviateStore_init "Document" 5 st) as [[store|e|] st1] eqn:Einit;
    [|done..].
  intros [= <- <-]. simpl.
  assert (max_retries store = 5) as Hm.
  { revert Einit. unfold WeaviateStore_init, bind, perform, ret.
    repeat match goal with
           | |- context [match ?x with _ => _ end] => destruct x
           end; try done; by intros [= <- _]. }
  repeat split; try done.
  intros file_paths st2.
  set (self := {| vector_store := store; chunk_size := 1000;
                  chunk_overlap := 200;
                  llm_model := "xiaomi/mimo-v2-flash:free" |}).
  destruct (ingest_loop_run self ltac:(simpl; lia) ltac:(simpl; lia)
              file_paths 0 st2) as (st3 & Hrun & _).
  by eexists _, st3.
Qed.

Lemma constructed_pipeline_ingests_witness :
  chunk_size sim_pipeline_default = 1000 /\
  chunk_overlap sim_pipeline_default = 200 /\
  max_retries (vector_store sim_pipeline_default) = 5 /\
  forall file_paths (st2 : state sim),
    exists total st3,
      ingest_multiple sim_pipeline_default file_paths st2 = (Ret total, st3).
Proof.
  apply (constructed_pipeline_ingests sim_start
           (snd (RAGPipeline_init sim_start))).
  vm_compute. reflexivity.
Defined.

(** ** Loaders and the upload filter *)

Section LoaderFacts.
Context `{FileSystem}.

Lemma load_txt_loop_skips file_path before rest :
  Forall (fun enc => read_text file_path enc = inl UnicodeDecodeError) before ->
  load_txt_loop file_path (before ++ rest) = load_txt_loop file_path rest.
Proof.
  induction 1 as [|enc before Henc _ IH]; [done|].
  simpl. by rewrite Henc.
Qed.

End LoaderFacts.

Section UploadFilterFacts.

Lemma after_last_dot_none s : has_dot s = false -> after_last_dot s = None.
Proof.
  induction s as [|c s IH]; [done|]. simpl.
  intros [Hc Hs]%orb_false_elim. by rewrite IH, Hc.
Qed.

Lemma after_last_dot_app stem ext :
  has_dot ext = false ->
  after_last_dot (stem +:+ "." +:+ ext) = Some ext.
Proof.
  intros Hext. induction stem as [|c stem IH].
  - change ("" +:+ "." +:+ ext)%string with (String "." ext).
    simpl. by rewrite after_last_dot_none.
  - rewrite append_cons. simpl. by rewrite IH.
Qed.

Lemma after_last_dot_split s ext :
  after_last_dot s = Some ext ->
  exists stem, s = (stem +:+ "." +:+ ext)%string /\ has_dot ext = false.
Proof.
  revert ext. induction s as [|c s IH]; intros ext; [done|]. simpl.
  destruct (after_last_dot s) as [ext'|] eqn:E.
  - intros [= <-]. destruct (IH ext' eq_refl) as (stem & -> & Hd).
    by exists (String c stem).
  - destruct (Ascii.eqb_spec c ".") as [->|_]; [|done].
    intros [= <-]. exists "". split; [done|].
    clear IH. induction s as [|d s IHs]; [done|]. simpl in *.
    destruct (after_last_dot s); [done|].
    destruct (Ascii.eqb d "."); [done|]. by rewrite IHs.
Qed.

End UploadFilterFacts.

(** X21.  [load_txt] returns the text under the first encoding, in the
    order utf-8, utf-16, utf-16-le, latin-1, that decodes the file: the
    encodings before it having failed with [UnicodeDecodeError], the later
    ones do not matter. *)
Theorem load_txt_first_decodable `{FileSystem}
    file_path before encoding rest text :
  encodings_to_try = before ++ encoding :: rest ->
  Forall (fun enc => read_text file_path enc = inl UnicodeDecodeError) before ->
  read_text file_path encoding = inr text ->
  load_txt file_path = inr text.
Proof.
  intros Hsplit Hbefore Hok. unfold load_txt.
  rewrite Hsplit, load_txt_loop_skips by done. simpl. by rewrite Hok.
Qed.

Lemma load_txt_first_decodable_witness :
  load_txt (H := sample_fs) "notes.txt" = inr "hello".
Proof.
  apply (load_txt_first_decodable (H := sample_fs) "notes.txt"
           ["utf-8"] "utf-16" ["utf-16-le"; "latin-1"]);
    [reflexivity | by repeat constructor | reflexivity].
Defined.

(** X22.  Only [UnicodeDecodeError] makes [load_txt] try the next
    encoding: any other exception is raised from the first encoding at
    which it occurs, even when a later encoding would have read the
    file. *)
Theorem load_txt_other_error `{FileSystem}
    file_path before encoding rest msg :
  encodings_to_try = before ++ encoding :: rest ->
  Forall (fun enc => read_text file_path enc = inl UnicodeDecodeError) before ->
  read_text file_path encoding = inl (OtherError msg) ->
  load_txt file_path = inl (LoaderOtherError msg).
Proof.
  intros Hsplit Hbefore Herr. unfold load_txt.
  rewrite Hsplit, load_txt_loop_skips by done. simpl. by rewrite Herr.
Qed.

Lemma load_txt_other_error_witness :
  load_txt (H := sample_fs) "latin.txt"
  = inl (LoaderOtherError "UTF-16 stream does not start with BOM").
Proof.
  apply (load_txt_other_error (H := sample_fs) "latin.txt"
           ["utf-8"] "utf-16" ["utf-16-le"; "latin-1"]);
    [reflexivity | by repeat constructor | reflexivity].
Defined.

(** X23.  [load_txt] raises its [ValueError] exactly when all four
    encodings fail with [UnicodeDecodeError]. *)
Theorem load_txt_value_error `{FileSystem} file_path :
  (exists msg, load_txt file_path = inl (LoaderValueError msg)) <->
  Forall (fun enc => read_text file_path enc = inl UnicodeDecodeError)
         encodings_to_try.
Proof.
  unfold load_txt, encodings_to_try. split.
  - intros [msg Hv]. simpl in Hv.
    repeat match type of Hv with
           | context [read_text file_path ?enc] =>
               destruct (read_text file_path enc) as [[|m]|t] eqn:?;
               try discriminate
           end.
    by repeat constructor.
  - intros Hall.
    rewrite <- (app_nil_r [_; _; _; _]), load_txt_loop_skips by done.
    by eexists.
Qed.

(** X24.  The upload filter looks only at what follows the last dot, and
    not at its case: [allowed_file] accepts exactly the names
    [stem + "." + ext] whose [ext] has no dot and is [pdf], [docx] or [txt]
    once lower-cased.  The stem may be empty. *)
Theorem allowed_file_extension filename :
  allowed_file filename = true <->
  exists stem ext,
    filename = (stem +:+ "." +:+ ext)%string /\
    has_dot ext = false /\
    lower ext ∈ ALLOWED_EXTENSIONS.
Proof.
  unfold allowed_file. split.
  - destruct (after_last_dot filename) as [ext|] eqn:E; [|done].
    intros Hin. apply after_last_dot_split in E as (stem & -> & Hd).
    exists stem, ext. split; [done|]. split; [done|].
    apply existsb_exists in Hin as (x & Hx & ->%String.eqb_eq).
    by apply list_elem_of_In.
  - intros (stem & ext & -> & Hd & Hin).
    rewrite after_last_dot_app by done.
    apply existsb_exists. exists (lower ext).
    split; [by apply list_elem_of_In|apply String.eqb_refl].
Qed.

(** The filter on a few names. *)
Example allowed_file_demo :
  allowed_file "Report.PDF" = true /\
  allowed_file ".txt" = true /\
  allowed_file "notes.v2.docx" = true /\
  allowed_file "archive.tar.gz" = false /\
  allowed_file "pdf" = false /\
  allowed_file "notes." = false.
Proof. by vm_compute. Qed.
